(** * breakIP: IPv4 address lists split into covering CIDR blocks

    A shallow embedding of [breakIP.py] and the properties of its address
    codec ([ip_to_int], [int_to_ip]), of the minimal covering block search
    ([find_min_subnet]) and of the partition loop ([split_subnets]).

    Modelling conventions.
    - Python's unbounded [int] is [Z]; [<<], [>>], [&], [|] and [~] are
      [Z.shiftl], [Z.shiftr], [Z.land], [Z.lor] and [Z.lnot], which agree with
      Python on negative numbers too (infinite two's complement).
    - A [str] is a [string]; a character is a code point below 256.
    - A raised exception is the [Raise] case of [result].
    - [ratio] is a Python float; it is modelled by the exact rational, which
      the float computation equals as long as the member count times 100
      stays below 2^53 (the divisor is a power of two).
    - [int()] of a text keeps the interpreter's default limit of 4300 digits
      per numeral ([Py.max_str_digits]). [str()] of an integer is total: the
      program writes octets and prefix lengths only, and the same limit could
      bite for a floor below -10^4300 alone, which the loop of
      [find_min_subnet] would first have to count down to. *)

From Stdlib Require Import ZArith List String Ascii Bool Lia.
From Stdlib Require Import Permutation Sorted Mergesort Orders.
From Stdlib Require Import QArith Decimal DecimalString DecimalPos.
Import ListNotations.

Local Open Scope string_scope.
Local Open Scope list_scope.
Local Open Scope Z_scope.

(** ** Exceptions *)

Inductive exn : Type :=
| ValueError
| IndexError
| ZeroDivisionError.

Inductive result (A : Type) : Type :=
| Ok (a : A)
| Raise (e : exn).

Arguments Ok {A} a.
Arguments Raise {A} e.

Definition bind {A B : Type} (c : result A) (k : A -> result B) : result B :=
  match c with
  | Ok a => k a
  | Raise e => Raise e
  end.

Notation "x <- c ;; k" := (bind c (fun x => k))
  (at level 61, c at next level, right associativity).

(** [[f(x) for x in l]]: the first exception, in list order, propagates. *)
Fixpoint mapM {A B : Type} (f : A -> result B) (l : list A) : result (list B) :=
  match l with
  | [] => Ok []
  | x :: r =>
      y <- f x ;;
      ys <- mapM f r ;;
      Ok (y :: ys)
  end.

(** [l[i]] for a non-negative literal index. *)
Definition index {A : Type} (l : list A) (i : nat) : result A :=
  match nth_error l i with
  | Some x => Ok x
  | None => Raise IndexError
  end.

(** What a call returned, if it returned. *)
Definition returned {A : Type} (r : result A) : option A :=
  match r with
  | Ok a => Some a
  | Raise _ => None
  end.

(** ** The Python builtins the program uses *)

Module Py.

(** [s.split(sep)] for a one-character separator: never empty. *)
Fixpoint split (sep : ascii) (s : string) : list string :=
  match s with
  | EmptyString => [EmptyString]
  | String c s' =>
      if Ascii.eqb c sep then EmptyString :: split sep s'
      else match split sep s' with
           | [] => [String c EmptyString]
           | w :: ws => String c w :: ws
           end
  end.

(** [sep.join(l)]. *)
Fixpoint join (sep : string) (l : list string) : string :=
  match l with
  | [] => EmptyString
  | [w] => w
  | w :: r => (w ++ sep ++ join sep r)%string
  end.

(** White space as [int()] sees it: tab to carriage return, space, and
    the two code points below 256 that it turns into a space. *)
Definition is_space (c : ascii) : bool :=
  let n := N_of_ascii c in
  (((9 <=? n) && (n <=? 13)) || (n =? 32) || (n =? 133) || (n =? 160))%N.

Definition digit_of (c : ascii) : option Z :=
  let n := Z.of_N (N_of_ascii c) in
  if (48 <=? n) && (n <=? 57) then Some (n - 48) else None.

Fixpoint skip_space (s : string) : string :=
  match s with
  | EmptyString => EmptyString
  | String c s' => if is_space c then skip_space s' else s
  end.

(** The digits after the first one; a single underscore may separate two
    digits. Returns the value and what follows the numeral, [None] for a
    doubled or trailing underscore. *)
Fixpoint digits_tail (s : string) (acc : Z) : option (Z * string) :=
  match s with
  | EmptyString => Some (acc, EmptyString)
  | String c s' =>
      match digit_of c with
      | Some d => digits_tail s' (10 * acc + d)
      | None =>
          if Ascii.eqb c "_" then
            match s' with
            | EmptyString => None
            | String c' s'' =>
                match digit_of c' with
                | Some d => digits_tail s'' (10 * acc + d)
                | None => None
                end
            end
          else Some (acc, s)
      end
  end.

(** The literal [int(s)] reads in base ten: white space, an optional sign,
    the numeral, white space. *)
Definition int_literal (s : string) : result Z :=
  let s1 := skip_space s in
  let '(neg, s2) :=
    match s1 with
    | String "-" r => (true, r)
    | String "+" r => (false, r)
    | _ => (false, s1)
    end in
  match s2 with
  | EmptyString => Raise ValueError
  | String c r =>
      match digit_of c with
      | None => Raise ValueError
      | Some d =>
          match digits_tail r d with
          | None => Raise ValueError
          | Some (v, rest) =>
              match skip_space rest with
              | EmptyString => Ok (if neg then - v else v)
              | String _ _ => Raise ValueError
              end
          end
      end
  end.

(** [sys.int_info.default_max_str_digits]: the program never calls
    [sys.set_int_max_str_digits], so the interpreter's default applies. *)
Definition max_str_digits : Z := 4300.

(** The digits of a text, underscores, sign and white space not counted. *)
Fixpoint count_digits (s : string) : Z :=
  match s with
  | EmptyString => 0
  | String c r =>
      match digit_of c with
      | Some _ => 1 + count_digits r
      | None => count_digits r
      end
  end.

(** [int(s)]: the literal is read, and a numeral of more than
    [max_str_digits] digits is refused with a [ValueError]. *)
Definition int (s : string) : result Z :=
  v <- int_literal s ;;
  if count_digits s <=? max_str_digits then Ok v else Raise ValueError.

(** [f"{n}"] and [str(n)] for an [int]. *)
Definition str (n : Z) : string := NilZero.string_of_int (Z.to_int n).

(** [min(l)]; the empty list raises. *)
Definition min (l : list Z) : result Z :=
  match l with
  | [] => Raise ValueError
  | x :: r => Ok (fold_left Z.min r x)
  end.

Definition max (l : list Z) : result Z :=
  match l with
  | [] => Raise ValueError
  | x :: r => Ok (fold_left Z.max r x)
  end.

(** [a << n]: a negative shift count raises. *)
Definition shl (a n : Z) : result Z :=
  if n <? 0 then Raise ValueError else Ok (Z.shiftl a n).

End Py.

(** ** The address codec *)

Definition ip_to_int (ip : string) : result Z :=
  octets <- mapM Py.int (Py.split "." ip) ;;
  o0 <- index octets 0 ;;
  o1 <- index octets 1 ;;
  o2 <- index octets 2 ;;
  o3 <- index octets 3 ;;
  Ok (Z.lor (Z.lor (Z.lor (Z.shiftl o0 24) (Z.shiftl o1 16)) (Z.shiftl o2 8)) o3).

Definition int_to_ip (num : Z) : string :=
  (Py.str (Z.land (Z.shiftr num 24) 255) ++ "." ++
   Py.str (Z.land (Z.shiftr num 16) 255) ++ "." ++
   Py.str (Z.land (Z.shiftr num 8) 255) ++ "." ++
   Py.str (Z.land num 255))%string.

(** ** Subnet arithmetic *)

Definition calculate_subnet_size (prefix_len : Z) : Z :=
  if (prefix_len <? 0) || (prefix_len >? 32) then 0
  else 2 ^ (32 - prefix_len).

(** [(0xFFFFFFFF << (32 - prefix_len)) & 0xFFFFFFFF], for a shift count that
    is not negative. *)
Definition mask_of (prefix_len : Z) : Z :=
  Z.land (Z.shiftl 0xFFFFFFFF (32 - prefix_len)) 0xFFFFFFFF.

Definition network_of (min_ip prefix_len : Z) : Z :=
  Z.land min_ip (mask_of prefix_len).

Definition broadcast_of (min_ip prefix_len : Z) : Z :=
  Z.lor (network_of min_ip prefix_len)
        (Z.land (Z.lnot (mask_of prefix_len)) 0xFFFFFFFF).

(** [all(network <= ip <= broadcast for ip in ips_int)]. *)
Definition all_within (network broadcast : Z) (ips_int : list Z) : bool :=
  forallb (fun ip => (network <=? ip) && (ip <=? broadcast)) ips_int.

(** The tuple [find_min_subnet] returns for a network, a broadcast address
    and a prefix length. *)
Definition subnet_tuple (network broadcast prefix_len : Z)
  : string * string * string * Z :=
  let start_ip := int_to_ip network in
  let end_ip := int_to_ip broadcast in
  let cidr := (start_ip ++ "/" ++ Py.str prefix_len)%string in
  (cidr, start_ip, end_ip, prefix_len).

(** The [while prefix_len >= min_prefix] loop, entered with
    [prefix_len = min_prefix + k - 1]: [k] counts the iterations left, and
    [None] is the loop running out without a [return]. *)
Fixpoint search_prefix (ips_int : list Z) (min_ip min_prefix : Z) (k : nat)
  : option (string * string * string * Z) :=
  match k with
  | O => None
  | S k' =>
      let prefix_len := min_prefix + Z.of_nat k' in
      let network := network_of min_ip prefix_len in
      let broadcast := broadcast_of min_ip prefix_len in
      if all_within network broadcast ips_int
      then Some (subnet_tuple network broadcast prefix_len)
      else search_prefix ips_int min_ip min_prefix k'
  end.

Definition find_min_subnet (ips_int : list Z) (min_prefix : Z)
  : result (string * string * string * Z) :=
  min_ip <- Py.min ips_int ;;
  _ <- Py.max ips_int ;;
  match search_prefix ips_int min_ip min_prefix (Z.to_nat (32 - min_prefix + 1)) with
  | Some t => Ok t
  | None =>
      shifted <- Py.shl 0xFFFFFFFF (32 - min_prefix) ;;
      let mask := Z.land shifted 0xFFFFFFFF in
      let network := Z.land min_ip mask in
      let broadcast := Z.lor network (Z.land (Z.lnot mask) 0xFFFFFFFF) in
      Ok (subnet_tuple network broadcast min_prefix)
  end.

(** ** The partition loop *)

(** One element of the aggregated list:
    [(cidr, start_ip, end_ip, current_ips, total_ips, ratio)]. *)
Record AggregatedSubnet : Type := mkAggregated {
  cidr : string;
  start_ip : string;
  end_ip : string;
  current_ips : list string;
  total_ips : Z;
  ratio : Q
}.

(** The [for ip in ips_int_sorted[1:]] scan: the addresses that follow the
    seed and share its /24, up to the first one that does not. *)
Fixpoint same24_run (current_24 : Z) (l : list Z) : list Z :=
  match l with
  | [] => []
  | ip :: r =>
      if Z.land ip 0xFFFFFF00 =? current_24
      then ip :: same24_run current_24 r
      else []
  end.

(** [ip in current_group]. *)
Definition member (ip : Z) (current_group : list Z) : bool :=
  existsb (Z.eqb ip) current_group.

(** [[ip for ip in ips_int_sorted if ip not in current_group]]. *)
Definition remove_group (current_group ips_int_sorted : list Z) : list Z :=
  filter (fun ip => negb (member ip current_group)) ips_int_sorted.

(** [len(current_ips) / total_ips * 100]. *)
Definition percentage (count : nat) (total : Z) : result Q :=
  if total =? 0 then Raise ZeroDivisionError
  else Ok ((inject_Z (Z.of_nat count) / inject_Z total * inject_Z 100)%Q).

(** The [else] branch: the record built for a group of several addresses. *)
Definition aggregate (current_group : list Z) (min_prefix : Z)
  : result AggregatedSubnet :=
  t <- find_min_subnet current_group min_prefix ;;
  let '(cidr, start_ip, end_ip, prefix_len) := t in
  let current_ips := map int_to_ip current_group in
  let total_ips := calculate_subnet_size prefix_len in
  ratio <- percentage (List.length current_ips) total_ips ;;
  Ok (mkAggregated cidr start_ip end_ip current_ips total_ips ratio).

(** The [while ips_int_sorted] loop. Every iteration removes at least the
    seed, so [fuel] bounds the iterations; [None] is the fuel running out
    (see [split_loop_fuel]: it never does from [split_subnets]). *)
Fixpoint split_loop (fuel : nat) (ips_int_sorted : list Z) (min_prefix : Z)
    (aggregate_subnets : list AggregatedSubnet) (single_ips : list string)
  : option (result (list AggregatedSubnet * list string)) :=
  match ips_int_sorted with
  | [] => Some (Ok (aggregate_subnets, single_ips))
  | current_ip :: rest =>
      match fuel with
      | O => None
      | S fuel' =>
          let current_24 := Z.land current_ip 0xFFFFFF00 in
          let current_group := current_ip :: same24_run current_24 rest in
          let remaining := remove_group current_group ips_int_sorted in
          if (List.length current_group =? 1)%nat then
            split_loop fuel' remaining min_prefix aggregate_subnets
                       (single_ips ++ [int_to_ip current_ip])
          else
            match aggregate current_group min_prefix with
            | Raise e => Some (Raise e)
            | Ok a =>
                split_loop fuel' remaining min_prefix
                           (aggregate_subnets ++ [a]) single_ips
            end
      end
  end.

(** [sorted(ips_int)]. *)
Module ZOrder <: TotalLeBool.
Definition t := Z.
Definition leb := Z.leb.
Theorem leb_total : forall a b, leb a b = true \/ leb b a = true.
Proof. intros a b; unfold leb; rewrite !Z.leb_le; lia. Qed.
End ZOrder.

Module ZSort := Sort ZOrder.

Definition sorted (l : list Z) : list Z := ZSort.sort l.

Definition split_subnets (ips : list string) (min_prefix : Z)
  : option (result (list AggregatedSubnet * list string)) :=
  match mapM ip_to_int ips with
  | Raise e => Some (Raise e)
  | Ok ips_int =>
      let ips_int_sorted := sorted ips_int in
      split_loop (List.length ips_int_sorted) ips_int_sorted min_prefix [] []
  end.

(** ** Vocabulary of the statements *)

(** A 32-bit address value. *)
Definition is_address (a : Z) : Prop := 0 <= a < 2 ^ 32.

Definition is_octet (o : Z) : bool := (0 <=? o) && (o <=? 255).

(** Four dot-separated numeric components, each in [0,255]: whatever
    [int()] reads as such a number counts, so ["01.2.3.4"] does. *)
Definition well_formed (s : string) : bool :=
  match mapM Py.int (Py.split "." s) with
  | Ok [a; b; c; d] => forallb is_octet [a; b; c; d]
  | _ => false
  end.

Definition is_digit (c : ascii) : bool :=
  match Py.digit_of c with
  | Some _ => true
  | None => false
  end.

Fixpoint all_digits (s : string) : bool :=
  match s with
  | EmptyString => true
  | String c r => is_digit c && all_digits r
  end.

(** A numeral the way [int_to_ip] writes it: digits only, at least one, and
    no leading zero except for ["0"] itself. *)
Definition canonical_numeral (s : string) : bool :=
  match s with
  | EmptyString => false
  | String c r =>
      is_digit c && all_digits r &&
      (negb (Ascii.eqb c "0") || String.eqb r EmptyString)
  end.

Definition canonical_octet (w : string) : bool :=
  canonical_numeral w &&
  match Py.int w with
  | Ok v => v <=? 255
  | Raise _ => false
  end.

(** Four dot-separated canonical numerals, each at most 255. *)
Definition canonical_quad (s : string) : bool :=
  match Py.split "." s with
  | [a; b; c; d] => forallb canonical_octet [a; b; c; d]
  | _ => false
  end.

(** [format(parse(s))]. *)
Definition format_parse (s : string) : result string :=
  n <- ip_to_int s ;;
  Ok (int_to_ip n).

Definition no_sep (sep : ascii) (w : string) : bool :=
  negb (existsb (Ascii.eqb sep) (list_ascii_of_string w)).

(** The value of a digit sequence read from the left onto [acc]. *)
Fixpoint uint_acc (d : uint) (acc : Z) : Z :=
  match d with
  | Nil => acc
  | D0 d => uint_acc d (10 * acc + 0)
  | D1 d => uint_acc d (10 * acc + 1)
  | D2 d => uint_acc d (10 * acc + 2)
  | D3 d => uint_acc d (10 * acc + 3)
  | D4 d => uint_acc d (10 * acc + 4)
  | D5 d => uint_acc d (10 * acc + 5)
  | D6 d => uint_acc d (10 * acc + 6)
  | D7 d => uint_acc d (10 * acc + 7)
  | D8 d => uint_acc d (10 * acc + 8)
  | D9 d => uint_acc d (10 * acc + 9)
  end.

(** The integer [ip_to_int] builds from four components. *)
Definition pack (o0 o1 o2 o3 : Z) : Z :=
  Z.lor (Z.lor (Z.lor (Z.shiftl o0 24) (Z.shiftl o1 16)) (Z.shiftl o2 8)) o3.

(** The round trip of the textual form, as the specification words it for
    every well-formed dotted quad. *)
Definition format_parse_roundtrip (s : string) : Prop :=
  well_formed s = true -> format_parse s = Ok s.

(** A component [int()] accepts. *)
Definition numeric (w : string) : bool :=
  match Py.int w with
  | Ok _ => true
  | Raise _ => false
  end.

Definition all_numeric (s : string) : bool :=
  forallb numeric (Py.split "." s).

(** The validation the specification asks of [parse]: whatever is not a
    well-formed dotted quad is refused. *)
Definition parse_refuses (s : string) : Prop :=
  well_formed s = false -> exists e, ip_to_int s = Raise e.

(** The containment test of [find_min_subnet] at prefix length [P]: the
    block aligned on [min_ip] holds every address of the list. *)
Definition covers (ips_int : list Z) (min_ip P : Z) : bool :=
  all_within (network_of min_ip P) (broadcast_of min_ip P) ips_int.

(** [find_min_subnet] returning the block of prefix length [P]. *)
Definition returns_block (ips_int : list Z) (floor min_ip P : Z) : Prop :=
  find_min_subnet ips_int floor
  = Ok ((int_to_ip (network_of min_ip P) ++ "/" ++ Py.str P)%string,
        int_to_ip (network_of min_ip P),
        int_to_ip (broadcast_of min_ip P),
        P).

(** The result the specification words: the smallest prefix length in
    [floor, 32] whose block covers the list. *)
Definition returns_smallest_prefix (ips_int : list Z) (floor : Z) : Prop :=
  exists min_ip P,
    Py.min ips_int = Ok min_ip /\
    returns_block ips_int floor min_ip P /\
    floor <= P <= 32 /\
    covers ips_int min_ip P = true /\
    (forall P', floor <= P' <= 32 -> covers ips_int min_ip P' = true -> P <= P').

(** The /24 network of an address, as the loop computes it. *)
Definition key24 (ip : Z) : Z := Z.land ip 0xFFFFFF00.

Definition Zsorted (l : list Z) : Prop := StronglySorted Z.le l.

(** The groups the loop consumes, in order: its control flow without the
    records it builds. *)
Fixpoint groups (fuel : nat) (ips_int_sorted : list Z) : list (list Z) :=
  match ips_int_sorted with
  | [] => []
  | current_ip :: rest =>
      match fuel with
      | O => []
      | S fuel' =>
          let current_group :=
            current_ip :: same24_run (Z.land current_ip 0xFFFFFF00) rest in
          current_group
            :: groups fuel' (remove_group current_group ips_int_sorted)
      end
  end.

Definition single (g : list Z) : bool := (List.length g =? 1)%nat.

Definition multi (g : list Z) : bool := negb (single g).

(** What the loop appends for a list of groups. *)
Fixpoint emit (gs : list (list Z)) (min_prefix : Z)
    (aggregate_subnets : list AggregatedSubnet) (single_ips : list string)
  : result (list AggregatedSubnet * list string) :=
  match gs with
  | [] => Ok (aggregate_subnets, single_ips)
  | g :: gs' =>
      if single g then
        emit gs' min_prefix aggregate_subnets (single_ips ++ [int_to_ip (hd 0 g)])
      else
        match aggregate g min_prefix with
        | Raise e => Raise e
        | Ok a => emit gs' min_prefix (aggregate_subnets ++ [a]) single_ips
        end
  end.

(** A group as the loop forms it: a seed followed by addresses of the
    seed's /24. *)
Definition same_network (g : list Z) : Prop :=
  g <> [] /\ Forall (fun y => key24 y = key24 (hd 0 g)) g.

(** The record [split_subnets] builds for the group [g] when
    [find_min_subnet] settles on the prefix length [P]. *)
Definition block_record (g : list Z) (P : Z) : AggregatedSubnet :=
  let network := network_of (hd 0 g) P in
  let broadcast := broadcast_of (hd 0 g) P in
  {| cidr := (int_to_ip network ++ "/" ++ Py.str P)%string;
     start_ip := int_to_ip network;
     end_ip := int_to_ip broadcast;
     current_ips := map int_to_ip g;
     total_ips := 2 ^ (32 - P);
     ratio := (inject_Z (Z.of_nat (List.length g)) / inject_Z (2 ^ (32 - P))
               * inject_Z 100)%Q |}.

(** [a] is the record of the group [g], whose block holds the group. *)
Definition aggregated_from (g : list Z) (a : AggregatedSubnet) : Prop :=
  exists P,
    24 <= P <= 32 /\
    a = block_record g P /\
    is_address (network_of (hd 0 g) P) /\
    is_address (broadcast_of (hd 0 g) P) /\
    broadcast_of (hd 0 g) P = network_of (hd 0 g) P + 2 ^ (32 - P) - 1 /\
    Forall (fun ip => network_of (hd 0 g) P <= ip <= broadcast_of (hd 0 g) P) g.

(** Every member of the record lies in the block the record reports: the
    block of [total_ips] addresses from [start_ip] to [end_ip] that the
    [cidr] text names. *)
Definition members_within_block (a : AggregatedSubnet) : Prop :=
  exists P network broadcast,
    24 <= P <= 32 /\
    cidr a = (start_ip a ++ "/" ++ Py.str P)%string /\
    ip_to_int (start_ip a) = Ok network /\
    ip_to_int (end_ip a) = Ok broadcast /\
    total_ips a = 2 ^ (32 - P) /\
    broadcast = network + total_ips a - 1 /\
    Forall (fun member =>
              exists ip, ip_to_int member = Ok ip /\ network <= ip <= broadcast)
           (current_ips a).

(** All the addresses [split_subnets] reports, aggregated ones first. *)
Definition reported (aggregate_subnets : list AggregatedSubnet)
    (single_ips : list string) : list string :=
  List.concat (map current_ips aggregate_subnets) ++ single_ips.



(** The distinct elements of a list, in the order of their first
    occurrence. *)
Fixpoint distinct (l : list Z) : list Z :=
  match l with
  | [] => []
  | k :: r => k :: filter (fun k' => negb (k' =? k)) (distinct r)
  end.

(** A global group-by-/24 of a list of addresses: one group for each /24
    network present in the list, made of every address of the list that
    belongs to it, wherever it stands. *)
Definition group_by_24 (l : list Z) : list (list Z) :=
  map (fun k => filter (fun ip => key24 ip =? k) l) (distinct (map key24 l)).

(** The partition of [split_subnets] being the global group-by-/24 of the
    input, as the specification words it for every input list: what is
    returned is what the global groups give, one record or one singleton
    for each. *)
Definition partition_is_global (ips : list string) (min_prefix : Z) : Prop :=
  forall ints,
    mapM ip_to_int ips = Ok ints ->
    split_subnets ips min_prefix
    = Some (emit (group_by_24 (sorted ints)) min_prefix [] []).

(** A component that is the literal of an integer, whatever its length. *)
Definition integer_component (w : string) : bool :=
  match Py.int_literal w with
  | Ok _ => true
  | Raise _ => false
  end.

(** Five or more integer components being read as the first four alone, as
    the specification words it for every such string. *)
Definition extra_components_dropped (s : string) : Prop :=
  forallb integer_component (Py.split "." s) = true ->
  (5 <= List.length (Py.split "." s))%nat ->
  exists n, ip_to_int s = Ok n /\
            ip_to_int (Py.join "." (firstn 4 (Py.split "." s))) = Ok n.

(** Case analysis on the integer comparisons of a boolean goal. *)
Ltac cases_cmp :=
  repeat match goal with
    | |- context [?a <=? ?b] => destruct (Z.leb_spec a b)
    | |- context [?a <? ?b] => destruct (Z.ltb_spec a b)
    end;
  cbn [andb orb negb]; try reflexivity; try lia.

(** The entries of a result, one list of texts per reported block: the
    members of each aggregated subnet, then each singleton on its own. *)
Definition entries (aggregate_subnets : list AggregatedSubnet)
    (single_ips : list string) : list (list string) :=
  map current_ips aggregate_subnets ++ map (fun s => [s]) single_ips.

(** Every text of the entry is an address of the /24 network [k]. *)
Definition entry_in_network (entry : list string) (k : Z) : Prop :=
  Forall (fun s => exists ip, ip_to_int s = Ok ip /\ key24 ip = k) entry.

(** ** Reading the address file *)

Module PyStr.

(** White space as [str.strip()] sees it, among the code points below 256:
    tab to carriage return, the four separators 28 to 31, space, and the code
    points 133 and 160. *)
Definition isspace (c : ascii) : bool :=
  let n := N_of_ascii c in
  (((9 <=? n) && (n <=? 13)) || ((28 <=? n) && (n <=? 32))
   || (n =? 133) || (n =? 160))%N.

Fixpoint lstrip (s : string) : string :=
  match s with
  | EmptyString => EmptyString
  | String c r => if isspace c then lstrip r else s
  end.

Fixpoint rstrip (s : string) : string :=
  match s with
  | EmptyString => EmptyString
  | String c r =>
      match rstrip r with
      | EmptyString => if isspace c then EmptyString else String c EmptyString
      | r' => String c r'
      end
  end.

(** [s.strip()]. *)
Definition strip (s : string) : string := rstrip (lstrip s).

(** [s.startswith(p)]. *)
Definition startswith (s p : string) : bool := String.prefix p s.

End PyStr.

(** The [for line in f] loop of [read_ips_from_file], on the lines the open
    file yields; [ips] is the list built so far. *)
Fixpoint read_lines (lines : list string) (ips : list string) : list string :=
  match lines with
  | [] => ips
  | line :: rest =>
      let line := PyStr.strip line in
      if String.eqb line EmptyString || PyStr.startswith line "#"
      then read_lines rest ips
      else read_lines rest (ips ++ [line])
  end.

(** [read_ips_from_file], the file being given by the lines it yields once
    opened (opening it, and the errors of that, are left to the caller). *)
Definition read_ips_from_file (lines : list string) : list string :=
  read_lines lines [].

(** A line [read_ips_from_file] drops: blank, or a comment. *)
Definition skipped (line : string) : bool :=
  String.eqb (PyStr.strip line) EmptyString
  || PyStr.startswith (PyStr.strip line) "#".

(** What is asked of a kept entry: not empty, not a comment, and no white
    space at its first or last character. *)
Definition clean_entry (s : string) : Prop :=
  s <> EmptyString /\
  PyStr.startswith s "#" = false /\
  (forall c r, s = String c r -> PyStr.isspace c = false) /\
  (forall p c, s = (p ++ String c EmptyString)%string -> PyStr.isspace c = false).

Fixpoint all_chars (f : ascii -> bool) (s : string) : bool :=
  match s with
  | EmptyString => true
  | String c r => f c && all_chars f r
  end.

(** The characters a text that parses can be made of: digits, the dot, a
    sign, the underscore, and the white space of [int()]. *)
Definition parse_char (c : ascii) : bool :=
  is_digit c || Py.is_space c || Ascii.eqb c "." || Ascii.eqb c "+"
  || Ascii.eqb c "-" || Ascii.eqb c "_".

(** * Properties *)

(** ** Decimal numerals *)

Lemma digits_tail_uint (d : uint) (acc : Z) :
  Py.digits_tail (NilEmpty.string_of_uint d) acc = Some (uint_acc d acc, EmptyString).
Proof.
  revert acc; induction d; intro acc; cbn [NilEmpty.string_of_uint uint_acc];
    [reflexivity | ..]; cbn [Py.digits_tail];
    match goal with
    | |- context [Py.digit_of ?c] =>
        change (Py.digit_of c) with (Some (Z.of_N (N_of_ascii c) - 48))
    end; cbn [N_of_ascii N_of_digits]; apply IHd.
Qed.

Lemma uint_acc_of_lu (d a : uint) :
  uint_acc d (Z.of_N (DecimalPos.Unsigned.of_lu a))
  = Z.of_N (DecimalPos.Unsigned.of_lu (revapp d a)).
Proof.
  revert a; induction d; intro a; cbn [uint_acc revapp]; [reflexivity | ..];
    rewrite <- IHd; f_equal; cbn [DecimalPos.Unsigned.of_lu]; lia.
Qed.

Lemma uint_acc_value (d : uint) : uint_acc d 0 = Z.of_N (Pos.of_uint d).
Proof.
  rewrite DecimalPos.Unsigned.of_uint_alt.
  exact (uint_acc_of_lu d Nil).
Qed.

Lemma int_digits (d : uint) :
  d <> Nil ->
  Py.int_literal (NilEmpty.string_of_uint d) = Ok (Z.of_N (Pos.of_uint d)).
Proof.
  intro Hd. rewrite <- uint_acc_value.
  destruct d; [congruence | ..];
    cbn [NilEmpty.string_of_uint]; unfold Py.int_literal; cbn [Py.skip_space];
    match goal with
    | |- context [Py.is_space ?c] => change (Py.is_space c) with false
    end; cbv iota beta;
    match goal with
    | |- context [Py.digit_of ?c] =>
        change (Py.digit_of c) with (Some (Z.of_N (N_of_ascii c) - 48))
    end; cbn [N_of_ascii N_of_digits]; cbv iota beta;
    rewrite digits_tail_uint; reflexivity.
Qed.

Lemma int_neg_digits (d : uint) :
  d <> Nil ->
  Py.int_literal (String "-" (NilEmpty.string_of_uint d))
  = Ok (- Z.of_N (Pos.of_uint d)).
Proof.
  intro Hd. rewrite <- uint_acc_value.
  destruct d; [congruence | ..];
    cbn [NilEmpty.string_of_uint]; unfold Py.int_literal; cbn [Py.skip_space];
    change (Py.is_space "-") with false; cbv iota beta;
    match goal with
    | |- context [Py.digit_of ?c] =>
        change (Py.digit_of c) with (Some (Z.of_N (N_of_ascii c) - 48))
    end; cbn [N_of_ascii N_of_digits]; cbv iota beta;
    rewrite digits_tail_uint; reflexivity.
Qed.

(** The text [str(n)] is a literal of [n], for every integer. *)
Lemma int_str (n : Z) : Py.int_literal (Py.str n) = Ok n.
Proof.
  unfold Py.str. destruct n as [|p|p]; cbn [Z.to_int NilZero.string_of_int].
  - reflexivity.
  - pose proof (DecimalPos.Unsigned.to_uint_nonnil p) as Hn.
    unfold NilZero.string_of_uint.
    destruct (Pos.to_uint p) eqn:E; [congruence | ..];
      rewrite (int_digits _ Hn), <- E;
      rewrite DecimalPos.Unsigned.of_to; reflexivity.
  - pose proof (DecimalPos.Unsigned.to_uint_nonnil p) as Hn.
    unfold NilZero.string_of_uint.
    destruct (Pos.to_uint p) eqn:E; [congruence | ..];
      rewrite (int_neg_digits _ Hn), <- E;
      rewrite DecimalPos.Unsigned.of_to; reflexivity.
Qed.

(** [int()] and the literal it reads. *)
Lemma int_of_literal (w : string) (v : Z) :
  Py.int w = Ok v -> Py.int_literal w = Ok v.
Proof.
  unfold Py.int. destruct (Py.int_literal w) as [u|e]; cbn [bind];
    [|discriminate].
  destruct (Py.count_digits w <=? Py.max_str_digits); [|discriminate].
  exact (fun H => H).
Qed.

Lemma int_short (w : string) (v : Z) :
  Py.int_literal w = Ok v -> Py.count_digits w <= Py.max_str_digits ->
  Py.int w = Ok v.
Proof.
  intros H Hd. unfold Py.int. rewrite H. cbn [bind].
  apply Z.leb_le in Hd. now rewrite Hd.
Qed.

(** A numeral of more than [max_str_digits] digits is refused. *)
Lemma int_long (w : string) :
  Py.max_str_digits < Py.count_digits w -> Py.int w = Raise ValueError.
Proof.
  intro H. unfold Py.int. destruct (Py.int_literal w) as [v|e] eqn:E; cbn [bind].
  - apply Z.leb_gt in H. now rewrite H.
  - revert E. unfold Py.int_literal.
    destruct (match Py.skip_space w with
              | String "-" r => (true, r)
              | String "+" r => (false, r)
              | _ => (false, Py.skip_space w)
              end) as [neg s2].
    destruct s2 as [|c r]; [congruence|].
    destruct (Py.digit_of c); [|congruence].
    destruct (Py.digits_tail r z) as [[v rest]|]; [|congruence].
    destruct (Py.skip_space rest); congruence.
Qed.

(** [int(str(o)) == o] for what [int_to_ip] writes. *)
Lemma int_str_octet (x : Z) :
  Py.int (Py.str (Z.land x 255)) = Ok (Z.land x 255).
Proof.
  apply int_short; [apply int_str|].
  assert (B : 0 <= Z.land x 255 <= 255).
  { change (Z.land x 255) with (Z.land x (Z.ones 8)).
    rewrite Z.land_ones by lia. change (2 ^ 8) with 256.
    pose proof (Z.mod_pos_bound x 256 ltac:(lia)). lia. }
  assert (T : forallb (fun n => Py.count_digits (Py.str (Z.of_nat n)) <=? 3)
                      (seq 0 256) = true) by (vm_compute; reflexivity).
  rewrite forallb_forall in T. specialize (T (Z.to_nat (Z.land x 255))).
  rewrite Z2Nat.id in T by lia.
  assert (I : In (Z.to_nat (Z.land x 255)) (seq 0 256)) by (apply in_seq; lia).
  apply T, Z.leb_le in I. unfold Py.max_str_digits. lia.
Qed.

Lemma is_digit_uint (c : ascii) (d : uint) :
  is_digit c = true -> exists d', uint_of_char c (Some d) = Some d'.
Proof.
  destruct c as [[|] [|] [|] [|] [|] [|] [|] [|]]; intro H;
    try discriminate H; eexists; reflexivity.
Qed.

Lemma all_digits_uint (s : string) :
  all_digits s = true -> exists d, NilEmpty.string_of_uint d = s.
Proof.
  intro H.
  assert (exists d, NilEmpty.uint_of_string s = Some d) as [d Hd].
  { induction s as [|c r IH]; cbn in *.
    - now exists Nil.
    - apply andb_prop in H as [Hc Hr].
      destruct (IH Hr) as [d Hd]. rewrite Hd. now apply is_digit_uint. }
  exists d. now apply NilEmpty.sus.
Qed.

Lemma canonical_numeral_uint (s : string) :
  canonical_numeral s = true ->
  exists d, NilEmpty.string_of_uint d = s /\ d <> Nil /\ unorm d = d.
Proof.
  destruct s as [|c r]; [discriminate|]. cbn [canonical_numeral].
  intro H. apply andb_prop in H as [H Hz]. pose proof H as Hall.
  apply (all_digits_uint (String c r)) in Hall as [d Hd].
  exists d. split; [exact Hd|].
  destruct d; cbn [NilEmpty.string_of_uint] in Hd; try discriminate Hd;
    (split; [discriminate|]); try reflexivity.
  injection Hd as Hc Hr. subst c. cbn in Hz.
  apply String.eqb_eq in Hz. subst r.
  destruct d; cbn in Hr; try discriminate Hr. reflexivity.
Qed.

Lemma to_int_of_N (n : N) : Z.to_int (Z.of_N n) = Pos (N.to_uint n).
Proof. destruct n; reflexivity. Qed.

(** A canonical numeral is read as a natural number and written back as
    itself. *)
Lemma canonical_numeral_roundtrip (s : string) :
  canonical_numeral s = true ->
  exists v, Py.int_literal s = Ok v /\ 0 <= v /\ Py.str v = s.
Proof.
  intro H. destruct (canonical_numeral_uint s H) as (d & Hs & Hn & Hu).
  exists (Z.of_N (Pos.of_uint d)). split; [|split].
  - rewrite <- Hs. now apply int_digits.
  - lia.
  - unfold Py.str. rewrite to_int_of_N. cbn [NilZero.string_of_int].
    rewrite DecimalPos.Unsigned.to_of, Hu.
    destruct d; [congruence | ..]; exact Hs.
Qed.

(** ** Splitting and joining on a separator *)

Lemma split_no_sep (sep : ascii) (w : string) :
  no_sep sep w = true -> Py.split sep w = [w].
Proof.
  unfold no_sep. induction w as [|c r IH]; cbn; [reflexivity|].
  rewrite Ascii.eqb_sym. destruct (Ascii.eqb c sep); cbn; [discriminate|].
  intro H. now rewrite (IH H).
Qed.

Lemma split_app_sep (sep : ascii) (w s : string) :
  no_sep sep w = true ->
  Py.split sep (w ++ String sep s) = w :: Py.split sep s.
Proof.
  unfold no_sep. induction w as [|c r IH]; cbn.
  - now rewrite Ascii.eqb_refl.
  - rewrite Ascii.eqb_sym. destruct (Ascii.eqb c sep); cbn; [discriminate|].
    intro H. now rewrite (IH H).
Qed.

Lemma split_join (sep : ascii) (l : list string) :
  l <> [] -> forallb (no_sep sep) l = true ->
  Py.split sep (Py.join (String sep EmptyString) l) = l.
Proof.
  induction l as [|w r IH]; [congruence|]. intros _ H.
  cbn in H. apply andb_prop in H as [Hw Hr].
  destruct r as [|w' r'].
  - cbn. now apply split_no_sep.
  - change (Py.join (String sep EmptyString) (w :: w' :: r'))
      with (w ++ String sep (Py.join (String sep EmptyString) (w' :: r')))%string.
    rewrite split_app_sep by exact Hw. f_equal. apply IH; [discriminate | exact Hr].
Qed.

Lemma split_nonempty (sep : ascii) (s : string) : Py.split sep s <> [].
Proof.
  destruct s as [|c r]; cbn; [discriminate|].
  destruct (Ascii.eqb c sep); [discriminate|].
  destruct (Py.split sep r); discriminate.
Qed.

Lemma join_split (sep : ascii) (s : string) :
  Py.join (String sep EmptyString) (Py.split sep s) = s.
Proof.
  induction s as [|c r IH]; [reflexivity|]. cbn [Py.split].
  pose proof (split_nonempty sep r) as Hne.
  destruct (Py.split sep r) as [|w ws]; [congruence|].
  destruct (Ascii.eqb_spec c sep) as [->|Hc].
  - cbn in *. now rewrite IH.
  - destruct ws; cbn in *; now rewrite IH.
Qed.

Lemma no_sep_digits (d : uint) : no_sep "." (NilEmpty.string_of_uint d) = true.
Proof.
  unfold no_sep. induction d; cbn in *; [reflexivity | ..];
    now apply negb_true_iff, negb_true_iff in IHd; rewrite IHd.
Qed.

Lemma no_sep_str (n : Z) : 0 <= n -> no_sep "." (Py.str n) = true.
Proof.
  intro Hn. unfold Py.str. destruct n as [|p|p]; [reflexivity | | lia].
  cbn [Z.to_int NilZero.string_of_int]. unfold NilZero.string_of_uint.
  destruct (Pos.to_uint p) eqn:E; [reflexivity | ..]; rewrite <- E;
    apply no_sep_digits.
Qed.

(** ** Bits of the octets *)

Lemma octet_bits (o m : Z) :
  is_octet o = true -> m < 0 \/ 8 <= m -> Z.testbit o m = false.
Proof.
  unfold is_octet. intros Ho [Hm|Hm].
  - now apply Z.testbit_neg_r.
  - apply andb_prop in Ho as [H0 H1]. apply Z.leb_le in H0, H1.
    rewrite <- (Z.mod_small o (2 ^ 8)) by lia.
    apply Z.mod_pow2_bits_high. lia.
Qed.

Lemma address_bits (a m : Z) : is_address a -> 32 <= m -> Z.testbit a m = false.
Proof.
  unfold is_address. intros Ha Hm.
  rewrite <- (Z.mod_small a (2 ^ 32)) by lia.
  apply Z.mod_pow2_bits_high. lia.
Qed.

Lemma bits_address (a : Z) :
  0 <= a -> (forall m, 32 <= m -> Z.testbit a m = false) -> is_address a.
Proof.
  intros H0 H. split; [exact H0|].
  destruct (Z.eq_dec a 0) as [->|Hne]; [lia|].
  apply Z.log2_lt_pow2; [lia|].
  destruct (Z.lt_ge_cases (Z.log2 a) 32) as [Hlt|Hge]; [exact Hlt|].
  specialize (H (Z.log2 a) Hge). rewrite Z.bit_log2 in H by lia. discriminate.
Qed.

Lemma testbit_255 (m : Z) : Z.testbit 255 m = (0 <=? m) && (m <? 8).
Proof. change 255 with (Z.ones 8). apply Z.testbit_ones. lia. Qed.

Lemma testbit_field (a k n : Z) :
  0 <= k -> 0 <= n ->
  Z.testbit (Z.shiftl (Z.land (Z.shiftr a k) 255) k) n
  = Z.testbit a n && ((k <=? n) && (n <? k + 8)).
Proof.
  intros Hk Hn. rewrite Z.shiftl_spec by lia.
  destruct (Z.leb_spec k n) as [Hle|Hlt].
  - rewrite Z.land_spec, Z.shiftr_spec, testbit_255 by lia.
    replace (n - k + k) with n by lia.
    replace (0 <=? n - k) with true by (symmetry; apply Z.leb_le; lia).
    f_equal. cbn. destruct (Z.ltb_spec (n - k) 8), (Z.ltb_spec n (k + 8)); lia.
  - rewrite Z.testbit_neg_r by lia. now rewrite andb_false_r.
Qed.

Lemma pack_unpack (a : Z) :
  is_address a ->
  pack (Z.land (Z.shiftr a 24) 255) (Z.land (Z.shiftr a 16) 255)
       (Z.land (Z.shiftr a 8) 255) (Z.land a 255) = a.
Proof.
  intro Ha. apply Z.bits_inj'. intros n Hn. unfold pack.
  rewrite !Z.lor_spec, !testbit_field by lia.
  rewrite Z.land_spec, testbit_255.
  destruct (Z.lt_ge_cases n 32) as [Hlt|Hge].
  - destruct (Z.testbit a n); cbn; [|reflexivity].
    destruct (Z.leb_spec 24 n), (Z.ltb_spec n (24 + 8)),
      (Z.leb_spec 16 n), (Z.ltb_spec n (16 + 8)),
      (Z.leb_spec 8 n), (Z.ltb_spec n (8 + 8)),
      (Z.leb_spec 0 n), (Z.ltb_spec n 8); cbn; try reflexivity; lia.
  - rewrite (address_bits a n Ha Hge). reflexivity.
Qed.

Lemma pack_bits (a b c d n : Z) :
  0 <= n ->
  Z.testbit (pack a b c d) n
  = Z.testbit a (n - 24) || Z.testbit b (n - 16) || Z.testbit c (n - 8)
    || Z.testbit d n.
Proof.
  intro Hn. unfold pack. now rewrite !Z.lor_spec, !Z.shiftl_spec by lia.
Qed.

Lemma is_octet_range (o : Z) : is_octet o = true <-> 0 <= o <= 255.
Proof. unfold is_octet. rewrite andb_true_iff, !Z.leb_le. tauto. Qed.

Lemma pack_address (a b c d : Z) :
  is_octet a = true -> is_octet b = true -> is_octet c = true ->
  is_octet d = true -> is_address (pack a b c d).
Proof.
  intros Ha Hb Hc Hd. apply bits_address.
  - apply is_octet_range in Ha as Ha', Hb as Hb', Hc as Hc', Hd as Hd'.
    unfold pack.
    apply Z.lor_nonneg; split; [|lia].
    apply Z.lor_nonneg; split; [|apply Z.shiftl_nonneg; lia].
    apply Z.lor_nonneg; split; apply Z.shiftl_nonneg; lia.
  - intros m Hm. rewrite pack_bits by lia.
    rewrite (octet_bits a), (octet_bits b), (octet_bits c), (octet_bits d)
      by (assumption || lia).
    reflexivity.
Qed.

Lemma field_pack (a b c d k : Z) (o : Z) :
  is_octet a = true -> is_octet b = true -> is_octet c = true ->
  is_octet d = true ->
  (k = 24 /\ o = a) \/ (k = 16 /\ o = b) \/ (k = 8 /\ o = c) \/ (k = 0 /\ o = d) ->
  Z.land (Z.shiftr (pack a b c d) k) 255 = o.
Proof.
  intros Ha Hb Hc Hd Hk. apply Z.bits_inj'. intros n Hn.
  rewrite Z.land_spec, testbit_255, Z.shiftr_spec, pack_bits by lia.
  destruct (Z.lt_ge_cases n 8) as [Hlt|Hge].
  - replace (0 <=? n) with true by (symmetry; apply Z.leb_le; lia).
    replace (n <? 8) with true by (symmetry; apply Z.ltb_lt; lia).
    rewrite andb_true_r.
    destruct Hk as [[-> ->]|[[-> ->]|[[-> ->]|[-> ->]]]].
    + replace (n + 24 - 24) with n by lia.
      rewrite (octet_bits b), (octet_bits c), (octet_bits d) by (assumption || lia).
      now rewrite !orb_false_r.
    + replace (n + 16 - 16) with n by lia.
      rewrite (octet_bits a), (octet_bits c), (octet_bits d) by (assumption || lia).
      now rewrite !orb_false_r.
    + replace (n + 8 - 8) with n by lia.
      rewrite (octet_bits a), (octet_bits b), (octet_bits d) by (assumption || lia).
      now rewrite !orb_false_r.
    + replace (n + 0) with n by lia.
      rewrite (octet_bits a), (octet_bits b), (octet_bits c) by (assumption || lia).
      reflexivity.
  - replace (n <? 8) with false by (symmetry; apply Z.ltb_ge; lia).
    rewrite !andb_false_r. symmetry.
    destruct Hk as [[-> ->]|[[-> ->]|[[-> ->]|[-> ->]]]];
      apply octet_bits; (assumption || lia).
Qed.

(** ** The codec *)

Lemma ip_to_int_components (s : string) (a b c d : Z) (rest : list Z) :
  mapM Py.int (Py.split "." s) = Ok (a :: b :: c :: d :: rest) ->
  ip_to_int s = Ok (pack a b c d).
Proof. intro H. unfold ip_to_int. rewrite H. reflexivity. Qed.

Lemma int_to_ip_join (num : Z) :
  int_to_ip num
  = Py.join "." [Py.str (Z.land (Z.shiftr num 24) 255);
                 Py.str (Z.land (Z.shiftr num 16) 255);
                 Py.str (Z.land (Z.shiftr num 8) 255);
                 Py.str (Z.land num 255)].
Proof. reflexivity. Qed.

Lemma land_255_nonneg (x : Z) : 0 <= Z.land x 255.
Proof. apply Z.land_nonneg. right. lia. Qed.

Lemma split_int_to_ip (num : Z) :
  Py.split "." (int_to_ip num)
  = [Py.str (Z.land (Z.shiftr num 24) 255);
     Py.str (Z.land (Z.shiftr num 16) 255);
     Py.str (Z.land (Z.shiftr num 8) 255);
     Py.str (Z.land num 255)].
Proof.
  rewrite int_to_ip_join. apply split_join; [discriminate|].
  cbn [forallb]. rewrite !no_sep_str by apply land_255_nonneg. reflexivity.
Qed.

(** [parse(format(a)) == a] for every 32-bit value. *)
Lemma parse_format (a : Z) : is_address a -> ip_to_int (int_to_ip a) = Ok a.
Proof.
  intro Ha.
  rewrite (ip_to_int_components _ (Z.land (Z.shiftr a 24) 255)
             (Z.land (Z.shiftr a 16) 255) (Z.land (Z.shiftr a 8) 255)
             (Z.land a 255) []).
  - now rewrite pack_unpack.
  - rewrite split_int_to_ip. cbn [mapM]. rewrite !int_str_octet. reflexivity.
Qed.

Lemma int_to_ip_pack (a b c d : Z) :
  is_octet a = true -> is_octet b = true -> is_octet c = true ->
  is_octet d = true ->
  int_to_ip (pack a b c d) = Py.join "." [Py.str a; Py.str b; Py.str c; Py.str d].
Proof.
  intros Ha Hb Hc Hd. rewrite int_to_ip_join.
  rewrite (field_pack a b c d 24 a), (field_pack a b c d 16 b),
    (field_pack a b c d 8 c) by (assumption || tauto).
  replace (Z.land (pack a b c d) 255) with d; [reflexivity|].
  symmetry. rewrite <- (Z.shiftr_0_r (pack a b c d)).
  apply field_pack; (assumption || tauto).
Qed.

Lemma canonical_octet_roundtrip (w : string) :
  canonical_octet w = true ->
  exists v, Py.int w = Ok v /\ is_octet v = true /\ Py.str v = w.
Proof.
  unfold canonical_octet. intro H. apply andb_prop in H as [Hc Hv].
  destruct (canonical_numeral_roundtrip w Hc) as (v & Hi & H0 & Hs).
  destruct (Py.int w) as [u|e] eqn:E; [|discriminate].
  rewrite (int_of_literal w u E) in Hi. injection Hi as ->.
  exists v. repeat split; try assumption.
  apply is_octet_range. apply Z.leb_le in Hv. lia.
Qed.

(** [format(parse(s)) == s] for every canonical dotted quad. *)
Lemma format_parse_canonical (s : string) :
  canonical_quad s = true -> format_parse s = Ok s.
Proof.
  unfold canonical_quad. intro H.
  destruct (Py.split "." s) as [|a [|b [|c [|d [|e r]]]]] eqn:E;
    try discriminate H.
  cbn [forallb] in H.
  apply andb_prop in H as [Ha H]. apply andb_prop in H as [Hb H].
  apply andb_prop in H as [Hc H]. apply andb_prop in H as [Hd _].
  destruct (canonical_octet_roundtrip a Ha) as (va & Ia & Oa & Sa).
  destruct (canonical_octet_roundtrip b Hb) as (vb & Ib & Ob & Sb).
  destruct (canonical_octet_roundtrip c Hc) as (vc & Ic & Oc & Sc).
  destruct (canonical_octet_roundtrip d Hd) as (vd & Id & Od & Sd).
  unfold format_parse.
  rewrite (ip_to_int_components s va vb vc vd []).
  - cbn [bind]. rewrite int_to_ip_pack by assumption.
    rewrite Sa, Sb, Sc, Sd, <- E. now rewrite join_split.
  - rewrite E. cbn [mapM]. rewrite Ia, Ib, Ic, Id. reflexivity.
Qed.

(** C7 (as stated, second half): a well-formed dotted quad with a leading
    zero is parsed, and formatted back without the zero. *)
Lemma format_parse_leading_zero : ~ format_parse_roundtrip "01.2.3.4".
Proof.
  unfold format_parse_roundtrip. intro H.
  specialize (H eq_refl). vm_compute in H. discriminate H.
Qed.

(** C7 (amended): [ip_to_int (int_to_ip a) = a] for every 32-bit integer [a],
    and [int_to_ip (ip_to_int s) = s] for every dotted quad [s] of four
    canonical decimal numerals (digits only, no leading zero), each at most
    255. *)
Theorem codec_roundtrip (a : Z) (s : string) :
  (is_address a -> ip_to_int (int_to_ip a) = Ok a) /\
  (canonical_quad s = true -> format_parse s = Ok s).
Proof. split; [apply parse_format | apply format_parse_canonical]. Qed.

Lemma codec_roundtrip_witness :
  (is_address 3232235786 /\ ip_to_int (int_to_ip 3232235786) = Ok 3232235786) /\
  (canonical_quad "192.168.1.10" = true /\
   format_parse "192.168.1.10" = Ok "192.168.1.10").
Proof.
  split.
  - assert (Ha : is_address 3232235786) by (unfold is_address; lia).
    split; [exact Ha|]. exact (proj1 (codec_roundtrip 3232235786 "192.168.1.10") Ha).
  - split; [reflexivity|].
    exact (proj2 (codec_roundtrip 3232235786 "192.168.1.10") eq_refl).
Defined.

(** ** What [ip_to_int] refuses and what it lets through *)

Lemma mapM_numeric (l : list string) :
  forallb numeric l = true ->
  exists vs, mapM Py.int l = Ok vs /\ List.length vs = List.length l.
Proof.
  induction l as [|w r IH]; cbn [forallb mapM]; intro H.
  - now exists [].
  - apply andb_prop in H as [Hw Hr]. destruct (IH Hr) as (vs & Hvs & Hlen).
    unfold numeric in Hw. destruct (Py.int w) as [v|e] eqn:E; [|discriminate].
    exists (v :: vs). cbn [bind]. rewrite Hvs. cbn. now rewrite Hlen.
Qed.

Lemma int_raises (w : string) (e : exn) : Py.int w = Raise e -> e = ValueError.
Proof.
  unfold Py.int. destruct (Py.int_literal w) as [v|e'] eqn:E; cbn [bind].
  { destruct (Py.count_digits w <=? Py.max_str_digits); congruence. }
  intros [= <-]. revert E. unfold Py.int_literal.
  destruct (match Py.skip_space w with
            | String "-" r => (true, r)
            | String "+" r => (false, r)
            | _ => (false, Py.skip_space w)
            end) as [neg s2].
  destruct s2 as [|c r]; [congruence|].
  destruct (Py.digit_of c); [|congruence].
  destruct (Py.digits_tail r z) as [[v rest]|]; [|congruence].
  destruct (Py.skip_space rest); congruence.
Qed.

Lemma mapM_not_numeric (l : list string) :
  forallb numeric l = false -> mapM Py.int l = Raise ValueError.
Proof.
  induction l as [|w r IH]; cbn [forallb mapM]; intro H; [discriminate|].
  unfold numeric in H at 1. destruct (Py.int w) as [v|e] eqn:E; cbn [bind].
  - cbn in H. now rewrite (IH H).
  - now rewrite (int_raises w e E).
Qed.

(** C9 (as stated): a component above 255 is not refused. *)
Lemma parse_accepts_256 : ~ parse_refuses "256.0.0.1".
Proof.
  unfold parse_refuses. intro H. destruct (H eq_refl) as [e He].
  vm_compute in He. discriminate He.
Qed.

(** C9 (amended): [ip_to_int] raises exactly when a dot-separated component is
    not an integer literal that [int()] accepts ([ValueError]; a numeral of
    more than 4300 digits is refused as well) or, all of them being accepted,
    there are fewer than four ([IndexError]); four or more accepted components
    give the value built from the first four, whatever their values: neither
    the range [0, 255] nor the count of four is checked. *)
Theorem parse_failures (s : string) :
  (all_numeric s = false -> ip_to_int s = Raise ValueError) /\
  (all_numeric s = true -> (List.length (Py.split "." s) < 4)%nat ->
   ip_to_int s = Raise IndexError) /\
  (all_numeric s = true -> (4 <= List.length (Py.split "." s))%nat ->
   exists a b c d rest,
     mapM Py.int (Py.split "." s) = Ok (a :: b :: c :: d :: rest) /\
     ip_to_int s = Ok (pack a b c d)) /\
  (existsb (fun w => Py.max_str_digits <? Py.count_digits w) (Py.split "." s)
   = true -> ip_to_int s = Raise ValueError).
Proof.
  assert (First : all_numeric s = false -> ip_to_int s = Raise ValueError).
  { unfold all_numeric, ip_to_int. intro H.
    now rewrite (mapM_not_numeric _ H). }
  split; [exact First|]. split; [|split].
  - unfold all_numeric, ip_to_int.
    intros H Hlen. destruct (mapM_numeric _ H) as (vs & -> & Hvs).
    rewrite <- Hvs in Hlen.
    destruct vs as [|a [|b [|c [|d r]]]]; cbn in Hlen; try lia; reflexivity.
  - unfold all_numeric.
    intros H Hlen. destruct (mapM_numeric _ H) as (vs & Hm & Hvs).
    rewrite <- Hvs in Hlen.
    destruct vs as [|a [|b [|c [|d r]]]]; cbn in Hlen; try lia.
    exists a, b, c, d, r. split; [exact Hm|].
    now apply (ip_to_int_components s a b c d r).
  - intro H. apply First. unfold all_numeric.
    apply existsb_exists in H as (w & Hw & Hd). apply Z.ltb_lt in Hd.
    destruct (forallb numeric (Py.split "." s)) eqn:N; [|reflexivity].
    rewrite forallb_forall in N. specialize (N w Hw).
    unfold numeric in N. now rewrite (int_long w Hd) in N.
Qed.

Lemma parse_failures_witness :
  (all_numeric "1.x.3.4" = false /\ ip_to_int "1.x.3.4" = Raise ValueError) /\
  (all_numeric "1.2.3" = true /\ (List.length (Py.split "." "1.2.3") < 4)%nat /\
   ip_to_int "1.2.3" = Raise IndexError) /\
  (all_numeric "300.2.3.4" = true /\
   (4 <= List.length (Py.split "." "300.2.3.4"))%nat /\
   exists a b c d rest,
     mapM Py.int (Py.split "." "300.2.3.4") = Ok (a :: b :: c :: d :: rest) /\
     ip_to_int "300.2.3.4" = Ok (pack a b c d)) /\
  ip_to_int ("1.2.3." ++ string_of_list_ascii (repeat "7"%char 4301))
  = Raise ValueError.
Proof.
  split; [|split; [|split]].
  - split; [reflexivity|]. exact (proj1 (parse_failures "1.x.3.4") eq_refl).
  - assert (L : (List.length (Py.split "." "1.2.3") < 4)%nat) by (cbn; lia).
    split; [reflexivity|]. split; [exact L|].
    exact (proj1 (proj2 (parse_failures "1.2.3")) eq_refl L).
  - assert (L : (4 <= List.length (Py.split "." "300.2.3.4"))%nat) by (cbn; lia).
    split; [reflexivity|]. split; [exact L|].
    exact (proj1 (proj2 (proj2 (parse_failures "300.2.3.4"))) eq_refl L).
  - apply (proj2 (proj2 (proj2 (parse_failures
             ("1.2.3." ++ string_of_list_ascii (repeat "7"%char 4301)))))).
    vm_compute. reflexivity.
Defined.

Lemma split_components_no_sep (sep : ascii) (s : string) :
  forallb (no_sep sep) (Py.split sep s) = true.
Proof.
  induction s as [|c r IH]; [reflexivity|]. cbn [Py.split].
  destruct (Ascii.eqb_spec c sep) as [->|Hc]; [exact IH|].
  destruct (Py.split sep r) as [|w ws]; [cbn|].
  - unfold no_sep. cbn. rewrite Ascii.eqb_sym.
    now destruct (Ascii.eqb_spec c sep).
  - cbn [forallb] in *. apply andb_prop in IH as [Hw Hws].
    rewrite Hws, andb_true_r. unfold no_sep in *. cbn.
    rewrite Ascii.eqb_sym. destruct (Ascii.eqb_spec c sep); [contradiction|].
    exact Hw.
Qed.

(** C10 (as stated): an integer component of more than 4300 digits is not
    read; the fifth component here is the literal of zero written with 4301
    digits, and [int()] raises [ValueError] on it. *)
Lemma long_component_refused :
  forallb integer_component
          (Py.split "." ("1.2.3.4." ++ string_of_list_ascii (repeat "0"%char 4301)))
  = true /\
  ip_to_int ("1.2.3.4." ++ string_of_list_ascii (repeat "0"%char 4301))
  = Raise ValueError /\
  ~ extra_components_dropped
      ("1.2.3.4." ++ string_of_list_ascii (repeat "0"%char 4301)).
Proof.
  assert (R : ip_to_int ("1.2.3.4." ++ string_of_list_ascii (repeat "0"%char 4301))
              = Raise ValueError) by (vm_compute; reflexivity).
  split; [vm_compute; reflexivity|]. split; [exact R|].
  intro H. destruct H as (n & Hn & _);
    [vm_compute; reflexivity | vm_compute; lia |].
  rewrite R in Hn. discriminate Hn.
Qed.

(** C10 (amended): with five or more components that [int()] accepts
    (integer literals of at most 4300 digits) [ip_to_int] returns, and what it
    returns is the value built from the first four components,
    [a << 24 | b << 16 | c << 8 | d], the one it returns for the text of the
    first four components alone. *)
Theorem extra_components_ignored (s : string) :
  all_numeric s = true -> (5 <= List.length (Py.split "." s))%nat ->
  exists a b c d,
    mapM Py.int (firstn 4 (Py.split "." s)) = Ok [a; b; c; d] /\
    ip_to_int s
    = Ok (Z.lor (Z.lor (Z.lor (Z.shiftl a 24) (Z.shiftl b 16)) (Z.shiftl c 8)) d) /\
    ip_to_int (Py.join "." (firstn 4 (Py.split "." s))) = ip_to_int s.
Proof.
  unfold all_numeric. intros H Hlen.
  pose proof (split_components_no_sep "." s) as Hsep.
  destruct (Py.split "." s) as [|wa [|wb [|wc [|wd [|we r]]]]] eqn:E;
    cbn in Hlen; try lia.
  destruct (mapM_numeric _ H) as (vs & Hvs & Hl).
  destruct vs as [|va [|vb [|vc [|vd vr]]]]; try discriminate Hl.
  assert (Four : mapM Py.int [wa; wb; wc; wd] = Ok [va; vb; vc; vd]).
  { cbn [mapM] in *.
    destruct (Py.int wa); [|discriminate]. destruct (Py.int wb); [|discriminate].
    destruct (Py.int wc); [|discriminate]. destruct (Py.int wd); [|discriminate].
    cbn [bind] in *.
    destruct (bind (Py.int we) _); [|discriminate]. cbn [bind] in Hvs.
    congruence. }
  assert (Whole : ip_to_int s = Ok (pack va vb vc vd)).
  { apply (ip_to_int_components s va vb vc vd vr). now rewrite E. }
  exists va, vb, vc, vd. cbn [firstn]. split; [exact Four|].
  split; [exact Whole|]. rewrite Whole.
  apply (ip_to_int_components _ va vb vc vd []).
  rewrite split_join; [exact Four|discriminate|].
  cbn [forallb] in *.
  apply andb_prop in Hsep as [-> Hsep]. apply andb_prop in Hsep as [-> Hsep].
  apply andb_prop in Hsep as [-> Hsep]. apply andb_prop in Hsep as [-> _].
  reflexivity.
Qed.

Lemma extra_components_ignored_witness :
  ip_to_int "1.2.3.4.5" = Ok 16909060 /\ ip_to_int "1.2.3.4" = Ok 16909060.
Proof.
  assert (L : (5 <= List.length (Py.split "." "1.2.3.4.5"))%nat) by (cbn; lia).
  destruct (extra_components_ignored "1.2.3.4.5" eq_refl L)
    as (a & b & c & d & Four & Whole & First).
  injection Four as <- <- <- <-. split; [exact Whole|].
  exact (eq_trans First Whole).
Defined.

(** ** The covering block *)

Lemma min_spec (ips_int : list Z) (m : Z) :
  Py.min ips_int = Ok m -> In m ips_int /\ Forall (Z.le m) ips_int.
Proof.
  destruct ips_int as [|x r]; [discriminate|]. cbn [Py.min]. intros [= <-].
  assert (G : forall l a, (fold_left Z.min l a = a \/ In (fold_left Z.min l a) l)
                          /\ fold_left Z.min l a <= a
                          /\ Forall (Z.le (fold_left Z.min l a)) l).
  { induction l as [|y l IH]; intro a; cbn [fold_left].
    - repeat split; [now left | lia | constructor].
    - destruct (IH (Z.min a y)) as (Hin & Hle & Hall). repeat split.
      + destruct Hin as [Heq|Hin]; [|right; now right].
        rewrite Heq. destruct (Z.min_spec a y) as [[_ ->]|[_ ->]];
          [now left | right; now left].
      + lia.
      + constructor; [lia | exact Hall]. }
  destruct (G r x) as (Hin & Hle & Hall). split.
  - destruct Hin as [->|Hin]; [now left | now right].
  - constructor; assumption.
Qed.

Lemma search_prefix_spec (ips_int : list Z) (m floor : Z) (k : nat) :
  match search_prefix ips_int m floor k with
  | Some t =>
      exists P, floor <= P < floor + Z.of_nat k /\
                covers ips_int m P = true /\
                t = subnet_tuple (network_of m P) (broadcast_of m P) P /\
                (forall P', P < P' < floor + Z.of_nat k ->
                            covers ips_int m P' = false)
  | None =>
      forall P', floor <= P' < floor + Z.of_nat k -> covers ips_int m P' = false
  end.
Proof.
  induction k as [|k IH]; cbn [search_prefix].
  - intros P' HP'. lia.
  - fold (covers ips_int m (floor + Z.of_nat k)).
    destruct (covers ips_int m (floor + Z.of_nat k)) eqn:E.
    + exists (floor + Z.of_nat k).
      split; [lia|]. split; [exact E|]. split; [reflexivity|].
      intros P' HP'. lia.
    + destruct (search_prefix ips_int m floor k) as [t|].
      * destruct IH as (P & HP & Hc & Ht & Hmax).
        exists P. split; [lia|]. split; [exact Hc|]. split; [exact Ht|].
        intros P' HP'. destruct (Z.eq_dec P' (floor + Z.of_nat k)) as [->|Hne];
          [exact E | apply Hmax; lia].
      * intros P' HP'. destruct (Z.eq_dec P' (floor + Z.of_nat k)) as [->|Hne];
          [exact E | apply IH; lia].
Qed.

Lemma search_range (floor : Z) :
  floor <= 32 -> floor + Z.of_nat (Z.to_nat (32 - floor + 1)) = 33.
Proof. intro H. rewrite Z2Nat.id; lia. Qed.

Lemma max_of_nonempty (ips_int : list Z) (m : Z) :
  Py.min ips_int = Ok m -> exists M, Py.max ips_int = Ok M.
Proof. destruct ips_int; [discriminate|]. intros _. eexists. reflexivity. Qed.

(** The loop of [find_min_subnet] stops at the largest covering prefix
    length of [floor, 32], when there is one. *)
Lemma find_min_subnet_found (ips_int : list Z) (floor m P0 : Z) :
  Py.min ips_int = Ok m -> floor <= P0 <= 32 -> covers ips_int m P0 = true ->
  exists P, returns_block ips_int floor m P /\
            floor <= P <= 32 /\
            covers ips_int m P = true /\
            (forall P', floor <= P' <= 32 -> covers ips_int m P' = true -> P' <= P).
Proof.
  intros Hm HP0 Hc0. unfold returns_block, find_min_subnet.
  destruct (max_of_nonempty _ _ Hm) as [M HM]. rewrite Hm, HM. cbn [bind].
  pose proof (search_prefix_spec ips_int m floor (Z.to_nat (32 - floor + 1))) as S.
  rewrite search_range in S by lia.
  destruct (search_prefix ips_int m floor (Z.to_nat (32 - floor + 1))) as [t|].
  - destruct S as (P & HP & Hc & -> & Hmax). exists P.
    split; [reflexivity|]. split; [lia|]. split; [exact Hc|].
    intros P' HP' Hc'. destruct (Z.le_gt_cases P' P) as [|Hgt]; [assumption|].
    rewrite Hmax in Hc' by lia. discriminate.
  - rewrite S in Hc0 by lia. discriminate.
Qed.

(** Without a covering prefix length in [floor, 32] the block of [floor] is
    returned as it is. *)
Lemma find_min_subnet_fallback (ips_int : list Z) (floor m : Z) :
  Py.min ips_int = Ok m -> floor <= 32 ->
  (forall P, floor <= P <= 32 -> covers ips_int m P = false) ->
  returns_block ips_int floor m floor.
Proof.
  intros Hm Hf Hnone. unfold returns_block, find_min_subnet.
  destruct (max_of_nonempty _ _ Hm) as [M HM]. rewrite Hm, HM. cbn [bind].
  pose proof (search_prefix_spec ips_int m floor (Z.to_nat (32 - floor + 1))) as S.
  rewrite search_range in S by lia.
  destruct (search_prefix ips_int m floor (Z.to_nat (32 - floor + 1))) as [t|].
  - destruct S as (P & HP & Hc & _). rewrite Hnone in Hc by lia. discriminate.
  - unfold Py.shl. replace (32 - floor <? 0) with false
      by (symmetry; apply Z.ltb_ge; lia).
    reflexivity.
Qed.

(** ** The block of a prefix length, arithmetically *)

Lemma mask_bits (P i : Z) :
  0 <= P <= 32 -> 0 <= i ->
  Z.testbit (mask_of P) i = (32 - P <=? i) && (i <? 32).
Proof.
  intros HP Hi. unfold mask_of. change 0xFFFFFFFF with (Z.ones 32).
  rewrite Z.land_spec, Z.shiftl_spec, !Z.testbit_ones by lia.
  cases_cmp.
Qed.

Lemma network_bits (m P i : Z) :
  is_address m -> 0 <= P <= 32 -> 0 <= i ->
  Z.testbit (network_of m P) i = Z.testbit m i && (32 - P <=? i).
Proof.
  intros Hm HP Hi. unfold network_of. rewrite Z.land_spec, mask_bits by lia.
  destruct (Z.lt_ge_cases i 32).
  - replace (i <? 32) with true by (symmetry; apply Z.ltb_lt; lia).
    now rewrite andb_true_r.
  - rewrite (address_bits m i Hm) by lia. reflexivity.
Qed.

Lemma network_arith (m P : Z) :
  is_address m -> 0 <= P <= 32 ->
  network_of m P = 2 ^ (32 - P) * (m / 2 ^ (32 - P)).
Proof.
  intros Hm HP. rewrite Z.mul_comm.
  rewrite <- Z.shiftr_div_pow2, <- Z.shiftl_mul_pow2 by lia.
  apply Z.bits_inj'. intros i Hi.
  rewrite network_bits, Z.shiftl_spec by (assumption || lia).
  destruct (Z.leb_spec (32 - P) i).
  - rewrite Z.shiftr_spec by lia. rewrite andb_true_r. f_equal. lia.
  - rewrite (Z.testbit_neg_r (Z.shiftr m (32 - P))) by lia.
    now rewrite andb_false_r.
Qed.

Lemma host_mask (P : Z) :
  0 <= P <= 32 -> Z.land (Z.lnot (mask_of P)) 0xFFFFFFFF = Z.ones (32 - P).
Proof.
  intro HP. apply Z.bits_inj'. intros i Hi.
  change 0xFFFFFFFF with (Z.ones 32).
  rewrite Z.land_spec, Z.lnot_spec, mask_bits, !Z.testbit_ones by lia.
  cases_cmp.
Qed.

Lemma broadcast_arith (m P : Z) :
  is_address m -> 0 <= P <= 32 ->
  broadcast_of m P = network_of m P + 2 ^ (32 - P) - 1.
Proof.
  intros Hm HP. unfold broadcast_of. rewrite host_mask by lia.
  assert (D : Z.land (network_of m P) (Z.ones (32 - P)) = 0).
  { apply Z.bits_inj'. intros i Hi.
    rewrite Z.land_spec, network_bits, Z.testbit_ones, Z.bits_0
      by (assumption || lia).
    destruct (Z.testbit m i); cbn [andb]; [|reflexivity]. cases_cmp. }
  rewrite <- Z.lxor_lor, <- Z.add_nocarry_lxor by exact D.
  rewrite Z.ones_equiv. lia.
Qed.

(** The block of prefix length [P] aligned on [m]: [2^(32-P)] consecutive
    addresses starting at a multiple of [2^(32-P)], with [m] among them. *)
Lemma block_aligned (m P : Z) :
  is_address m -> 0 <= P <= 32 ->
  let size := calculate_subnet_size P in
  size = 2 ^ (32 - P) /\
  network_of m P = size * (m / size) /\
  broadcast_of m P = network_of m P + size - 1 /\
  network_of m P <= m <= broadcast_of m P.
Proof.
  intros Hm HP size.
  assert (Hs : size = 2 ^ (32 - P)).
  { unfold size, calculate_subnet_size.
    replace (P <? 0) with false by (symmetry; apply Z.ltb_ge; lia).
    replace (P >? 32) with false
      by (symmetry; rewrite Z.gtb_ltb; apply Z.ltb_ge; lia).
    reflexivity. }
  assert (Hpos : 0 < 2 ^ (32 - P)) by (apply Z.pow_pos_nonneg; lia).
  rewrite Hs, broadcast_arith, network_arith by assumption.
  split; [reflexivity|]. split; [reflexivity|]. split; [reflexivity|].
  pose proof (Z.mod_pos_bound m (2 ^ (32 - P)) Hpos).
  pose proof (Z.div_mod m (2 ^ (32 - P))). lia.
Qed.

Lemma covers_forall (ips_int : list Z) (m P : Z) :
  covers ips_int m P = true <->
  Forall (fun ip => network_of m P <= ip <= broadcast_of m P) ips_int.
Proof.
  unfold covers, all_within. rewrite forallb_forall, Forall_forall.
  split; intros H ip Hip; specialize (H ip Hip).
  - apply andb_prop in H as [H1 H2]. apply Z.leb_le in H1, H2. lia.
  - apply andb_true_intro. rewrite !Z.leb_le. lia.
Qed.

Lemma covers_whole_space (ips_int : list Z) (m : Z) :
  is_address m -> Forall is_address ips_int -> covers ips_int m 0 = true.
Proof.
  intros Hm Hall. apply covers_forall.
  destruct (block_aligned m 0 Hm) as (Hs & Hn & Hb & _); [lia|].
  rewrite Hb, Hn, Hs. unfold is_address in Hm.
  rewrite Z.div_small by (cbn in *; lia).
  apply Forall_impl with (2 := Hall). unfold is_address. cbn. lia.
Qed.

(** ** C1 and C8: the result of [find_min_subnet] *)

(** C1 (as stated): for two neighbouring addresses the /31 block is returned,
    while the smallest covering prefix length of [24, 32] is 24. *)
Lemma smallest_prefix_not_returned :
  ~ returns_smallest_prefix [3232235786; 3232235787] 24.
Proof.
  intros (m & P & Hm & Hret & HP & Hc & Hmin).
  assert (Em : m = 3232235786) by (injection Hm as <-; reflexivity).
  subst m. unfold returns_block in Hret.
  assert (E : find_min_subnet [3232235786; 3232235787] 24
              = Ok ("192.168.1.10/31", "192.168.1.10", "192.168.1.11", 31))
    by (vm_compute; reflexivity).
  rewrite E in Hret.
  apply (f_equal (fun r => match r with
                           | Ok (_, _, _, p) => p
                           | Raise _ => 0
                           end)) in Hret.
  cbv beta iota in Hret.
  assert (C : covers [3232235786; 3232235787] 3232235786 24 = true)
    by (vm_compute; reflexivity).
  pose proof (Hmin 24 ltac:(lia) C) as Hle. rewrite <- Hret in Hle.
  apply Hle. reflexivity.
Qed.

(** C1 (amended): for a non-empty list of 32-bit addresses with minimum [m]
    and a floor for which some prefix length of [floor, 32] has its block
    cover the list, [find_min_subnet] returns the largest such prefix length
    [P] (the smallest covering block), with the network and broadcast
    addresses of that block, which has [2^(32-P)] addresses and starts at a
    multiple of its size, and the text [format(network) + "/" + P]. *)
Theorem find_min_subnet_largest_prefix (ips_int : list Z) (floor m : Z) :
  Py.min ips_int = Ok m ->
  Forall is_address ips_int ->
  (exists P0, floor <= P0 <= 32 /\ covers ips_int m P0 = true) ->
  exists P,
    find_min_subnet ips_int floor
    = Ok ((int_to_ip (network_of m P) ++ "/" ++ Py.str P)%string,
          int_to_ip (network_of m P), int_to_ip (broadcast_of m P), P) /\
    floor <= P <= 32 /\ 0 <= P /\
    Forall (fun ip => network_of m P <= ip <= broadcast_of m P) ips_int /\
    (forall P', floor <= P' <= 32 -> covers ips_int m P' = true -> P' <= P) /\
    network_of m P = 2 ^ (32 - P) * (m / 2 ^ (32 - P)) /\
    broadcast_of m P = network_of m P + 2 ^ (32 - P) - 1.
Proof.
  intros Hm Hall (P0 & HP0 & Hc0).
  destruct (find_min_subnet_found ips_int floor m P0 Hm HP0 Hc0)
    as (P & Hret & HP & Hc & Hmax).
  assert (Hma : is_address m).
  { destruct (min_spec _ _ Hm) as [Hin _].
    rewrite Forall_forall in Hall. now apply Hall. }
  assert (HP_nonneg : 0 <= P).
  { destruct (Z.le_gt_cases floor 0) as [Hle|Hgt]; [|lia].
    apply (Hmax 0); [lia|]. now apply covers_whole_space. }
  exists P. split; [exact Hret|]. split; [exact HP|]. split; [exact HP_nonneg|].
  split; [now apply covers_forall|]. split; [exact Hmax|].
  destruct (block_aligned m P Hma) as (Hs & Hn & Hb & _); [lia|].
  rewrite Hs in Hn, Hb. split; [exact Hn | exact Hb].
Qed.

Lemma find_min_subnet_largest_prefix_witness :
  exists P,
    find_min_subnet [3232235786; 3232235787; 3232235788] 24
    = Ok ((int_to_ip (network_of 3232235786 P) ++ "/" ++ Py.str P)%string,
          int_to_ip (network_of 3232235786 P),
          int_to_ip (broadcast_of 3232235786 P), P) /\
    24 <= P <= 32 /\ 0 <= P /\
    Forall (fun ip => network_of 3232235786 P <= ip <= broadcast_of 3232235786 P)
           [3232235786; 3232235787; 3232235788] /\
    (forall P', 24 <= P' <= 32 ->
                covers [3232235786; 3232235787; 3232235788] 3232235786 P' = true ->
                P' <= P) /\
    network_of 3232235786 P = 2 ^ (32 - P) * (3232235786 / 2 ^ (32 - P)) /\
    broadcast_of 3232235786 P = network_of 3232235786 P + 2 ^ (32 - P) - 1.
Proof.
  apply (find_min_subnet_largest_prefix
           [3232235786; 3232235787; 3232235788] 24 3232235786).
  - reflexivity.
  - repeat constructor; unfold is_address; lia.
  - exists 24. split; [lia | reflexivity].
Defined.

(** A floor above 32 is not a prefix length: the loop is skipped and the
    shift by [32 - min_prefix] raises. *)
Lemma find_min_subnet_floor_above_32 (ips_int : list Z) (floor m : Z) :
  Py.min ips_int = Ok m -> 32 < floor ->
  find_min_subnet ips_int floor = Raise ValueError.
Proof.
  intros Hm Hf. unfold find_min_subnet.
  destruct (max_of_nonempty _ _ Hm) as [M HM]. rewrite Hm, HM. cbn [bind].
  replace (Z.to_nat (32 - floor + 1)) with O by lia. cbn [search_prefix].
  unfold Py.shl. replace (32 - floor <? 0) with true
    by (symmetry; apply Z.ltb_lt; lia).
  reflexivity.
Qed.

(** C8: for a non-empty list with minimum [m] and a floor (at most 32) such
    that no prefix length of [floor, 32] passes the containment test,
    [find_min_subnet] returns the prefix [floor] itself, with the network
    [m AND mask(floor)] and its broadcast address, although that block does
    not hold every address. *)
Theorem find_min_subnet_forced_floor (ips_int : list Z) (floor m : Z) :
  Py.min ips_int = Ok m -> floor <= 32 ->
  (forall P, floor <= P <= 32 -> covers ips_int m P = false) ->
  let mask := Z.land (Z.shiftl 0xFFFFFFFF (32 - floor)) 0xFFFFFFFF in
  let network := Z.land m mask in
  let broadcast := Z.lor network (Z.land (Z.lnot mask) 0xFFFFFFFF) in
  find_min_subnet ips_int floor
  = Ok ((int_to_ip network ++ "/" ++ Py.str floor)%string,
        int_to_ip network, int_to_ip broadcast, floor) /\
  all_within network broadcast ips_int = false.
Proof.
  intros Hm Hf Hnone mask network broadcast. split.
  - exact (find_min_subnet_fallback ips_int floor m Hm Hf Hnone).
  - apply (Hnone floor). lia.
Qed.

Lemma find_min_subnet_forced_floor_witness :
  find_min_subnet [167772161; 167772360] 28
  = Ok ("10.0.0.0/28", "10.0.0.0", "10.0.0.15", 28) /\
  all_within 167772160 167772175 [167772161; 167772360] = false.
Proof.
  apply (find_min_subnet_forced_floor [167772161; 167772360] 28 167772161).
  - reflexivity.
  - lia.
  - intros P HP.
    assert (C : P = 28 \/ P = 29 \/ P = 30 \/ P = 31 \/ P = 32) by lia.
    destruct C as [->|[->|[->|[->| ->]]]]; reflexivity.
Defined.

(** ** Sorted lists *)

Lemma sorted_Zsorted (l : list Z) : Zsorted (sorted l).
Proof.
  unfold Zsorted, sorted.
  assert (T : Relations_1.Transitive (fun x y : Z => is_true (ZOrder.leb x y))).
  { intros x y z. unfold is_true, ZOrder.leb. rewrite !Z.leb_le. lia. }
  pose proof (ZSort.StronglySorted_sort l T) as H.
  induction H as [|x r _ IH Hx]; constructor; [exact IH|].
  apply Forall_impl with (2 := Hx). intros y Hy. now apply Z.leb_le.
Qed.

Lemma sorted_permutation (l : list Z) : Permutation l (sorted l).
Proof. apply ZSort.Permuted_sort. Qed.

Lemma Zsorted_unique (l l' : list Z) :
  Zsorted l -> Zsorted l' -> Permutation l l' -> l = l'.
Proof.
  intro Hl. revert l'. induction Hl as [|x r Hr IH Hx]; intros l' Hl' Hp.
  - now apply Permutation_nil in Hp.
  - destruct Hl' as [|y r' Hr' Hy].
    + apply Permutation_sym, Permutation_nil in Hp. discriminate.
    + assert (x = y).
      { assert (Hxy : In x (y :: r')) by (apply (Permutation_in _ Hp); now left).
        assert (Hyx : In y (x :: r))
          by (apply (Permutation_in _ (Permutation_sym Hp)); now left).
        rewrite Forall_forall in Hx, Hy.
        destruct Hxy as [->|Hxy]; [reflexivity|].
        destruct Hyx as [->|Hyx]; [reflexivity|].
        specialize (Hx y Hyx). specialize (Hy x Hxy). lia. }
      subst y. f_equal. apply IH; [exact Hr'|].
      now apply Permutation_cons_inv in Hp.
Qed.

Lemma sorted_of_permutation (l l' : list Z) :
  Permutation l l' -> sorted l = sorted l'.
Proof.
  intro Hp. apply Zsorted_unique; try apply sorted_Zsorted.
  eapply Permutation_trans; [apply Permutation_sym, sorted_permutation|].
  eapply Permutation_trans; [exact Hp | apply sorted_permutation].
Qed.

Lemma Zsorted_app (l1 l2 : list Z) :
  Zsorted (l1 ++ l2) ->
  Zsorted l1 /\ Zsorted l2 /\ (forall a b, In a l1 -> In b l2 -> a <= b).
Proof.
  unfold Zsorted. induction l1 as [|x l1 IH]; cbn [app]; intro H.
  - split; [constructor|]. split; [exact H|]. intros a b [].
  - inversion H as [|? ? Hs Hx]; subst.
    destruct (IH Hs) as (H1 & H2 & H12).
    apply Forall_app in Hx as [Hx1 Hx2].
    split; [now constructor|]. split; [exact H2|].
    intros a b [<-|Ha] Hb.
    + rewrite Forall_forall in Hx2. now apply Hx2.
    + now apply H12.
Qed.

Lemma min_of_sorted (x : Z) (r : list Z) :
  Zsorted (x :: r) -> Py.min (x :: r) = Ok x.
Proof.
  intro H. inversion H as [|? ? _ Hx]; subst. cbn [Py.min]. f_equal.
  clear H. induction r as [|y r IH]; [reflexivity|]. cbn [fold_left].
  inversion Hx as [|? ? Hy Hr]; subst.
  rewrite Z.min_l by exact Hy. now apply IH.
Qed.

(** ** One iteration of the partition loop *)

Lemma run_prefix (k : Z) (r : list Z) :
  r = same24_run k r ++ skipn (List.length (same24_run k r)) r.
Proof.
  induction r as [|y r IH]; [reflexivity|]. cbn [same24_run].
  destruct (Z.land y 0xFFFFFF00 =? k); [|reflexivity].
  change (y :: r = y :: (same24_run k r
                          ++ skipn (List.length (same24_run k r)) r)).
  f_equal. exact IH.
Qed.

Lemma run_same_key (k : Z) (r : list Z) :
  Forall (fun y => key24 y = k) (same24_run k r).
Proof.
  induction r as [|y r IH]; cbn [same24_run]; [constructor|].
  destruct (Z.eqb_spec (Z.land y 0xFFFFFF00) k); constructor; assumption.
Qed.

Lemma run_stops (k : Z) (r : list Z) (h : Z) (t : list Z) :
  skipn (List.length (same24_run k r)) r = h :: t -> key24 h <> k.
Proof.
  induction r as [|y r IH]; [discriminate|]. cbn [same24_run].
  destruct (Z.eqb_spec (Z.land y 0xFFFFFF00) k) as [E|E].
  - cbn [List.length skipn]. exact IH.
  - cbn [List.length skipn]. intros [= <- _]. exact E.
Qed.

Lemma member_true (ip : Z) (g : list Z) : member ip g = true <-> In ip g.
Proof.
  unfold member. rewrite existsb_exists. split.
  - intros (y & Hy & E). apply Z.eqb_eq in E. now subst.
  - intro H. exists ip. split; [exact H | apply Z.eqb_refl].
Qed.

Lemma filter_none {A : Type} (f : A -> bool) (l : list A) :
  (forall x, In x l -> f x = false) -> filter f l = [].
Proof.
  induction l as [|x l IH]; intro H; [reflexivity|]. cbn [filter].
  rewrite (H x) by now left. apply IH. intros y Hy. apply H. now right.
Qed.

Lemma filter_all {A : Type} (f : A -> bool) (l : list A) :
  (forall x, In x l -> f x = true) -> filter f l = l.
Proof.
  induction l as [|x l IH]; intro H; [reflexivity|]. cbn [filter].
  rewrite (H x) by now left. f_equal. apply IH. intros y Hy. apply H. now right.
Qed.

Lemma remove_prefix_group (x : Z) (run rest : list Z) :
  Zsorted (x :: run ++ rest) ->
  Forall (fun y => key24 y = key24 x) run ->
  (forall h t, rest = h :: t -> key24 h <> key24 x) ->
  remove_group (x :: run) (x :: run ++ rest) = rest.
Proof.
  intros Hs Hrun Hstop.
  assert (Hk : Forall (fun y => key24 y = key24 x) (x :: run))
    by (constructor; [reflexivity | exact Hrun]).
  unfold remove_group.
  change (x :: run ++ rest) with ((x :: run) ++ rest) in *.
  rewrite filter_app, filter_none.
  2:{ intros y Hy. apply negb_false_iff, member_true. exact Hy. }
  cbn [app]. apply filter_all. intros y Hy. apply negb_true_iff.
  destruct (member y (x :: run)) eqn:M; [|reflexivity]. exfalso.
  apply member_true in M.
  destruct rest as [|h t]; [destruct Hy|].
  assert (Hh : key24 h <> key24 x) by (apply (Hstop h t); reflexivity).
  apply Zsorted_app in Hs as (_ & Hrest & Hcross).
  assert (h <= y).
  { destruct Hy as [<-|Hy]; [lia|].
    inversion Hrest as [|? ? _ Hall]; subst.
    rewrite Forall_forall in Hall. now apply Hall. }
  assert (y <= h) by (apply Hcross; [exact M | now left]).
  assert (y = h) by lia. subst y.
  rewrite Forall_forall in Hk. apply Hh. now apply Hk.
Qed.

(** On a sorted list the removal drops the group, which is a prefix, and
    nothing else. *)
Lemma remove_group_sorted (x : Z) (r : list Z) :
  Zsorted (x :: r) ->
  remove_group (x :: same24_run (key24 x) r) (x :: r)
  = skipn (List.length (same24_run (key24 x) r)) r.
Proof.
  intro Hs. pose proof (run_prefix (key24 x) r) as Hr.
  replace (x :: r)
    with (x :: same24_run (key24 x) r
               ++ skipn (List.length (same24_run (key24 x) r)) r)
    by (f_equal; symmetry; exact Hr).
  apply remove_prefix_group.
  - now rewrite <- Hr.
  - apply run_same_key.
  - intros h t. apply run_stops.
Qed.

(** ** The loop as a list of groups *)

Lemma remove_group_shorter (g : list Z) (x : Z) (r : list Z) :
  In x g -> (List.length (remove_group g (x :: r)) <= List.length r)%nat.
Proof.
  intro Hx. unfold remove_group. cbn [filter].
  replace (member x g) with true by (symmetry; now apply member_true).
  cbn [negb]. apply filter_length_le.
Qed.

(** The fuel [split_subnets] gives the loop is enough: with at least as
    much fuel as addresses the loop ends, and does what [emit] does on the
    groups. *)
Lemma split_loop_fuel (fuel : nat) (l : list Z) (min_prefix : Z)
    (aggs : list AggregatedSubnet) (singles : list string) :
  (List.length l <= fuel)%nat ->
  split_loop fuel l min_prefix aggs singles
  = Some (emit (groups fuel l) min_prefix aggs singles).
Proof.
  revert l aggs singles. induction fuel as [|fuel IH]; intros l aggs singles Hlen.
  - destruct l; [reflexivity | cbn in Hlen; lia].
  - destruct l as [|x r]; [reflexivity|].
    cbn [split_loop groups emit]. unfold single.
    assert (Hrem : (List.length
                      (remove_group (x :: same24_run (Z.land x 0xFFFFFF00) r) (x :: r))
                    <= fuel)%nat).
    { etransitivity; [apply remove_group_shorter; now left|].
      cbn in Hlen. lia. }
    destruct (List.length (x :: same24_run (Z.land x 0xFFFFFF00) r) =? 1)%nat.
    + now apply IH.
    + destruct (aggregate (x :: same24_run (Z.land x 0xFFFFFF00) r) min_prefix);
        [now apply IH | reflexivity].
Qed.

Lemma groups_sorted (fuel : nat) (l : list Z) :
  Zsorted l -> (List.length l <= fuel)%nat ->
  List.concat (groups fuel l) = l /\ Forall same_network (groups fuel l).
Proof.
  revert l. induction fuel as [|fuel IH]; intros l Hs Hlen.
  - destruct l; [split; [reflexivity | constructor] | cbn in Hlen; lia].
  - destruct l as [|x r]; [split; [reflexivity | constructor]|].
    cbn [groups]. fold (key24 x). rewrite remove_group_sorted by exact Hs.
    pose proof (run_prefix (key24 x) r) as Hr.
    remember (same24_run (key24 x) r) as run eqn:Erun.
    remember (skipn (List.length run) r) as rest eqn:Erest.
    assert (Hrest : Zsorted rest).
    { inversion Hs as [|? ? Hsr _]; subst. rewrite Hr in Hsr.
      now apply Zsorted_app in Hsr as (_ & H & _). }
    assert (Hlen' : (List.length rest <= fuel)%nat).
    { cbn in Hlen. apply (f_equal (@List.length Z)) in Hr.
      rewrite length_app in Hr. lia. }
    destruct (IH rest Hrest Hlen') as [Hc Hg]. split.
    + cbn [List.concat]. rewrite Hc.
      change ((x :: run) ++ rest) with (x :: (run ++ rest)). now rewrite <- Hr.
    + constructor; [|exact Hg]. split; [discriminate|].
      cbn [hd]. constructor; [reflexivity | rewrite Erun; apply run_same_key].
Qed.

Lemma emit_spec (gs : list (list Z)) (min_prefix : Z)
    (aggs aggs' : list AggregatedSubnet) (singles singles' : list string) :
  emit gs min_prefix aggs singles = Ok (aggs', singles') ->
  exists new,
    aggs' = aggs ++ new /\
    Forall2 (fun g a => aggregate g min_prefix = Ok a) (filter multi gs) new /\
    singles' = singles ++ map (fun g => int_to_ip (hd 0 g)) (filter single gs).
Proof.
  revert aggs singles. induction gs as [|g gs IH]; intros aggs singles H.
  - cbn in H. injection H as <- <-. exists []. rewrite !List.app_nil_r.
    split; [reflexivity|]. split; [constructor | reflexivity].
  - cbn [emit filter] in *. unfold multi. destruct (single g); cbn [negb].
    + destruct (IH _ _ H) as (new & Ha & Hf & Hsg). exists new.
      split; [exact Ha|]. split; [exact Hf|].
      rewrite Hsg, <- List.app_assoc. reflexivity.
    + destruct (aggregate g min_prefix) as [a|e] eqn:E; [|discriminate].
      destruct (IH _ _ H) as (new & Ha & Hf & Hsg). exists (a :: new).
      split; [now rewrite Ha, <- List.app_assoc|].
      split; [now constructor | exact Hsg].
Qed.

Lemma emit_total (gs : list (list Z)) (min_prefix : Z)
    (aggs : list AggregatedSubnet) (singles : list string) :
  Forall (fun g => multi g = true -> exists a, aggregate g min_prefix = Ok a) gs ->
  exists aggs' singles', emit gs min_prefix aggs singles = Ok (aggs', singles').
Proof.
  intro H. revert aggs singles.
  induction H as [|g gs Hg _ IH]; intros aggs singles; cbn [emit].
  - now exists aggs, singles.
  - unfold multi in Hg. destruct (single g); [apply IH|].
    destruct (Hg eq_refl) as [a ->]. apply IH.
Qed.

(** ** The record of a group under the floor 24 *)

Lemma key24_network (x : Z) : key24 x = network_of x 24.
Proof. reflexivity. Qed.

Lemma same_key_covers (x : Z) (g : list Z) :
  is_address x -> Forall is_address g ->
  Forall (fun y => key24 y = key24 x) g -> covers g x 24 = true.
Proof.
  intros Hx Hg Hk. apply covers_forall.
  destruct (block_aligned x 24 Hx) as (_ & _ & Hbx & _); [lia|].
  rewrite Forall_forall in *. intros y Hy.
  destruct (block_aligned y 24 (Hg y Hy)) as (_ & _ & Hby & Hin); [lia|].
  pose proof (Hk y Hy) as E. rewrite !key24_network in E. lia.
Qed.

Lemma block_addresses (x P : Z) :
  is_address x -> 0 <= P <= 32 ->
  is_address (network_of x P) /\ is_address (broadcast_of x P).
Proof.
  intros Hx HP.
  destruct (block_aligned x P Hx HP) as (Hs & Hn & Hb & Hin).
  assert (Hpos : 0 < 2 ^ (32 - P)) by (apply Z.pow_pos_nonneg; lia).
  assert (H0 : 0 <= network_of x P).
  { rewrite Hn, Hs. apply Z.mul_nonneg_nonneg; [lia|].
    apply Z.div_pos; [unfold is_address in Hx; lia | lia]. }
  split; [unfold is_address in *; lia|].
  apply bits_address; [lia|].
  intros i Hi. unfold broadcast_of.
  rewrite Z.lor_spec, network_bits, host_mask, Z.testbit_ones
    by (assumption || lia).
  rewrite (address_bits x i Hx Hi). cbn [andb orb]. cases_cmp.
Qed.

Lemma percentage_ok (count : nat) (total : Z) :
  0 < total ->
  percentage count total
  = Ok (inject_Z (Z.of_nat count) / inject_Z total * inject_Z 100)%Q.
Proof.
  intro H. unfold percentage.
  replace (total =? 0) with false by (symmetry; apply Z.eqb_neq; lia).
  reflexivity.
Qed.

Lemma aggregate_24 (x : Z) (r : list Z) :
  Zsorted (x :: r) -> Forall is_address (x :: r) ->
  Forall (fun y => key24 y = key24 x) (x :: r) ->
  exists a, aggregate (x :: r) 24 = Ok a /\ aggregated_from (x :: r) a.
Proof.
  intros Hs Ha Hk.
  assert (Hx : is_address x) by now inversion Ha.
  destruct (find_min_subnet_found (x :: r) 24 x 24)
    as (P & Hret & HP & Hc & _).
  { now apply min_of_sorted. }
  { lia. }
  { now apply same_key_covers. }
  exists (block_record (x :: r) P). split.
  - unfold aggregate. unfold returns_block in Hret. rewrite Hret.
    cbn [bind]. cbv beta iota zeta.
    destruct (block_aligned x P Hx) as (Hsize & _); [lia|].
    cbv zeta in Hsize. rewrite Hsize.
    rewrite percentage_ok by (apply Z.pow_pos_nonneg; lia).
    cbn [bind]. rewrite length_map. reflexivity.
  - exists P. cbn [hd].
    destruct (block_addresses x P Hx) as [Hna Hba]; [lia|].
    split; [exact HP|]. split; [reflexivity|]. split; [exact Hna|].
    split; [exact Hba|].
    split; [apply broadcast_arith; [exact Hx | lia] | now apply covers_forall].
Qed.

(** ** The whole partition under the floor 24 *)

Lemma well_formed_address (s : string) :
  well_formed s = true -> exists v, ip_to_int s = Ok v /\ is_address v.
Proof.
  unfold well_formed. intro H.
  destruct (mapM Py.int (Py.split "." s)) as [[|a [|b [|c [|d [|e r]]]]]|] eqn:E;
    try discriminate H.
  cbn [forallb] in H.
  apply andb_prop in H as [Ha H]. apply andb_prop in H as [Hb H].
  apply andb_prop in H as [Hc H]. apply andb_prop in H as [Hd _].
  exists (pack a b c d). split.
  - now apply (ip_to_int_components s a b c d []).
  - now apply pack_address.
Qed.

Lemma mapM_well_formed (ips : list string) :
  forallb well_formed ips = true ->
  exists ints, mapM ip_to_int ips = Ok ints /\ Forall is_address ints.
Proof.
  induction ips as [|s ips IH]; cbn [forallb mapM]; intro H.
  - exists []. split; [reflexivity | constructor].
  - apply andb_prop in H as [Hs Hr].
    destruct (well_formed_address s Hs) as (v & -> & Hv).
    destruct (IH Hr) as (ints & -> & Hints).
    exists (v :: ints). split; [reflexivity | now constructor].
Qed.

Lemma concat_parts_sorted (gs : list (list Z)) :
  Zsorted (List.concat gs) -> Forall Zsorted gs.
Proof.
  induction gs as [|g gs IH]; cbn [List.concat]; intro H; [constructor|].
  apply Zsorted_app in H as (Hg & Hgs & _). constructor; [exact Hg | now apply IH].
Qed.

Lemma concat_parts_forall {A : Type} (Q : A -> Prop) (gs : list (list A)) :
  Forall Q (List.concat gs) -> Forall (Forall Q) gs.
Proof.
  induction gs as [|g gs IH]; cbn [List.concat]; intro H; [constructor|].
  apply Forall_app in H as [Hg Hgs]. constructor; [exact Hg | now apply IH].
Qed.

Lemma Forall2_impl_in {A B : Type} (R R' : A -> B -> Prop) (l : list A)
    (l' : list B) :
  (forall x y, In x l -> R x y -> R' x y) -> Forall2 R l l' -> Forall2 R' l l'.
Proof.
  intros H F. induction F as [|x y l l' Hxy _ IH]; constructor.
  - apply H; [now left | exact Hxy].
  - apply IH. intros x' y' Hin. apply H. now right.
Qed.

(** What [split_subnets] returns for 32-bit addresses and the floor 24, in
    terms of the groups [gs] it consumed. *)
Lemma split_subnets_24 (ips : list string) (ints : list Z) :
  mapM ip_to_int ips = Ok ints -> Forall is_address ints ->
  exists gs aggs singles,
    split_subnets ips 24 = Some (Ok (aggs, singles)) /\
    List.concat gs = sorted ints /\
    Forall same_network gs /\
    Forall2 (fun g a => In g gs /\ multi g = true /\ aggregated_from g a)
            (filter multi gs) aggs /\
    singles = map (fun g => int_to_ip (hd 0 g)) (filter single gs).
Proof.
  intros Hints Ha. unfold split_subnets. rewrite Hints.
  rewrite split_loop_fuel by apply le_n.
  set (l := sorted ints). set (gs := groups (List.length l) l).
  destruct (groups_sorted (List.length l) l (sorted_Zsorted ints) (le_n _))
    as [Hc Hn]. fold gs in Hc, Hn.
  assert (Hsorted : Forall Zsorted gs).
  { apply concat_parts_sorted. rewrite Hc. apply sorted_Zsorted. }
  assert (Haddr : Forall (Forall is_address) gs).
  { apply concat_parts_forall. rewrite Hc. rewrite Forall_forall in *.
    intros y Hy. apply Ha.
    apply (Permutation_in _ (Permutation_sym (sorted_permutation ints))).
    exact Hy. }
  assert (Hagg : forall g, In g gs ->
                           exists a, aggregate g 24 = Ok a /\ aggregated_from g a).
  { intros g Hg. rewrite Forall_forall in Hn, Hsorted, Haddr.
    destruct (Hn g Hg) as [Hne Hk]. destruct g as [|x r]; [congruence|].
    apply aggregate_24; [now apply Hsorted | now apply Haddr | exact Hk]. }
  destruct (emit_total gs 24 [] []) as (aggs & singles & He).
  { apply Forall_forall. intros g Hg _. destruct (Hagg g Hg) as (a & Ea & _).
    now exists a. }
  exists gs, aggs, singles. split; [now rewrite He|].
  split; [exact Hc|]. split; [exact Hn|].
  destruct (emit_spec _ _ _ _ _ _ He) as (new & -> & Hf & ->).
  cbn [app]. split; [|reflexivity].
  apply Forall2_impl_in with (2 := Hf). intros g a Hin Ea.
  apply filter_In in Hin as [Hin M].
  destruct (Hagg g Hin) as (a' & Ea' & Hfrom).
  rewrite Ea in Ea'. injection Ea' as <-. now repeat split.
Qed.

Lemma Forall2_right {A B : Type} (R : A -> B -> Prop) (Q : B -> Prop)
    (l : list A) (l' : list B) :
  (forall x y, R x y -> Q y) -> Forall2 R l l' -> Forall Q l'.
Proof.
  intros H F. induction F as [|x y l l' Hxy _ IH]; constructor;
    [now apply (H x) | exact IH].
Qed.

Lemma aggregated_members_within (g : list Z) (a : AggregatedSubnet) :
  aggregated_from g a -> members_within_block a.
Proof.
  intros (P & HP & -> & Hn & Hb & Hsize & Hin).
  exists P, (network_of (hd 0 g) P), (broadcast_of (hd 0 g) P).
  cbn [block_record cidr start_ip end_ip current_ips total_ips].
  split; [exact HP|]. split; [reflexivity|].
  split; [now apply parse_format|]. split; [now apply parse_format|].
  split; [reflexivity|]. split; [exact Hsize|].
  apply Forall_map. apply Forall_impl with (2 := Hin). intros y Hy.
  exists y. split; [|exact Hy].
  apply parse_format. unfold is_address in *. lia.
Qed.

(** ** C2: coverage *)

(** C2: for well-formed dotted-quad inputs and the floor 24, [split_subnets]
    returns, and every member of every aggregated subnet lies between the
    network and the broadcast address of the block the record reports. *)
Theorem members_covered (ips : list string) :
  forallb well_formed ips = true ->
  exists aggs singles,
    split_subnets ips 24 = Some (Ok (aggs, singles)) /\
    Forall members_within_block aggs.
Proof.
  intro H. destruct (mapM_well_formed ips H) as (ints & Hints & Ha).
  destruct (split_subnets_24 ips ints Hints Ha)
    as (gs & aggs & singles & Hret & _ & _ & Hf & _).
  exists aggs, singles. split; [exact Hret|].
  apply Forall2_right with (2 := Hf). intros g a (_ & _ & Hfrom).
  now apply (aggregated_members_within g).
Qed.

Lemma members_covered_witness :
  exists aggs singles,
    split_subnets ["192.168.1.10"; "192.168.1.11"; "10.0.0.1"; "192.168.1.12"] 24
    = Some (Ok (aggs, singles)) /\
    Forall members_within_block aggs.
Proof.
  apply (members_covered
           ["192.168.1.10"; "192.168.1.11"; "10.0.0.1"; "192.168.1.12"]).
  reflexivity.
Defined.

(** ** C3: the partition is complete *)

Lemma single_group (g : list Z) : single g = true -> g = [hd 0 g].
Proof.
  unfold single. destruct g as [|x [|y r]]; cbn; intro H;
    [discriminate | reflexivity | discriminate].
Qed.

Lemma concat_single_multi (gs : list (list Z)) :
  Permutation (List.concat (filter multi gs) ++ List.concat (filter single gs))
              (List.concat gs).
Proof.
  induction gs as [|g gs IH]; [constructor|].
  cbn [filter List.concat]. unfold multi at 1.
  destruct (single g); cbn [negb List.concat].
  - eapply Permutation_trans; [apply Permutation_app_swap_app|].
    now apply Permutation_app_head.
  - rewrite <- List.app_assoc. now apply Permutation_app_head.
Qed.

Lemma members_of_groups (gs' : list (list Z)) (aggs : list AggregatedSubnet)
    (gs : list (list Z)) :
  Forall2 (fun g a => In g gs /\ multi g = true /\ aggregated_from g a) gs' aggs ->
  List.concat (map current_ips aggs) = map int_to_ip (List.concat gs').
Proof.
  intro F. induction F as [|g a gs' aggs (_ & _ & P & _ & -> & _) _ IH];
    [reflexivity|].
  cbn [map List.concat]. rewrite IH, map_app. reflexivity.
Qed.

Lemma singles_of_groups (gs : list (list Z)) :
  map (fun g => int_to_ip (hd 0 g)) (filter single gs)
  = map int_to_ip (List.concat (filter single gs)).
Proof.
  induction gs as [|g gs IH]; [reflexivity|]. cbn [filter].
  destruct (single g) eqn:S; [|exact IH].
  cbn [map List.concat]. rewrite (single_group g S) at 2.
  cbn [app map]. now rewrite IH.
Qed.

Lemma mapM_parse_format (ints : list Z) :
  Forall is_address ints -> mapM ip_to_int (map int_to_ip ints) = Ok ints.
Proof.
  induction 1 as [|x l Hx _ IH]; [reflexivity|].
  cbn [map mapM]. rewrite parse_format by exact Hx. cbn [bind].
  now rewrite IH.
Qed.

Lemma mapM_cons {A B : Type} (f : A -> result B) (x : A) (l : list A)
    (ys : list B) :
  mapM f (x :: l) = Ok ys ->
  exists y ys', f x = Ok y /\ mapM f l = Ok ys' /\ ys = y :: ys'.
Proof.
  cbn [mapM]. destruct (f x) as [y|]; [|discriminate]. cbn [bind].
  destruct (mapM f l) as [ys'|]; [|discriminate]. cbn [bind].
  intros [= <-]. now exists y, ys'.
Qed.

Lemma mapM_permutation {A B : Type} (f : A -> result B) (l l' : list A) :
  Permutation l l' ->
  forall ys, mapM f l = Ok ys ->
             exists ys', mapM f l' = Ok ys' /\ Permutation ys ys'.
Proof.
  induction 1 as [|x l l' _ IH|x y l|l l' l'' _ IH1 _ IH2]; intros ys H.
  - exists ys. now split.
  - apply mapM_cons in H as (v & vs & Hx & Hl & ->).
    destruct (IH vs Hl) as (vs' & Hl' & Hp).
    exists (v :: vs'). cbn [mapM]. rewrite Hx, Hl'. split; [reflexivity|].
    now constructor.
  - apply mapM_cons in H as (vy & ys1 & Hy & H & ->).
    apply mapM_cons in H as (vx & ys2 & Hx & H & ->).
    exists (vx :: vy :: ys2). cbn [mapM]. rewrite Hx, Hy, H.
    split; [reflexivity | constructor].
  - destruct (IH1 ys H) as (ys' & H' & Hp1).
    destruct (IH2 ys' H') as (ys'' & H'' & Hp2).
    exists ys''. split; [exact H'' | now apply Permutation_trans with ys'].
Qed.

Lemma canonical_inputs (ips : list string) (ints : list Z) :
  forallb canonical_quad ips = true -> mapM ip_to_int ips = Ok ints ->
  map int_to_ip ints = ips.
Proof.
  revert ints. induction ips as [|s ips IH]; intros ints Hc H.
  - cbn in H. now injection H as <-.
  - cbn [forallb] in Hc. apply andb_prop in Hc as [Hs Hc].
    apply mapM_cons in H as (v & vs & Hv & Hvs & ->).
    cbn [map]. rewrite (IH vs Hc Hvs). f_equal.
    pose proof (format_parse_canonical s Hs) as F.
    unfold format_parse in F. rewrite Hv in F. cbn [bind] in F.
    now injection F.
Qed.

(** C3: for well-formed dotted-quad inputs (floor 24) [split_subnets]
    returns, and the addresses it reports, aggregated members and singletons
    together, are the input addresses, each occurrence exactly once: as 32-bit
    values, and as texts up to the canonical form [int_to_ip] writes (so
    literally, when the input texts are canonical). *)
Theorem partition_complete (ips : list string) :
  forallb well_formed ips = true ->
  exists ints aggs singles,
    mapM ip_to_int ips = Ok ints /\
    split_subnets ips 24 = Some (Ok (aggs, singles)) /\
    Permutation (reported aggs singles) (map int_to_ip ints) /\
    (exists outs, mapM ip_to_int (reported aggs singles) = Ok outs /\
                  Permutation outs ints) /\
    (forallb canonical_quad ips = true -> Permutation (reported aggs singles) ips).
Proof.
  intro H. destruct (mapM_well_formed ips H) as (ints & Hints & Ha).
  destruct (split_subnets_24 ips ints Hints Ha)
    as (gs & aggs & singles & Hret & Hc & _ & Hf & Hs).
  exists ints, aggs, singles. split; [exact Hints|]. split; [exact Hret|].
  assert (Hp : Permutation (reported aggs singles) (map int_to_ip ints)).
  { unfold reported. rewrite (members_of_groups _ _ _ Hf), Hs, singles_of_groups.
    rewrite <- map_app. apply Permutation_map.
    eapply Permutation_trans; [apply concat_single_multi|].
    rewrite Hc. apply Permutation_sym, sorted_permutation. }
  split; [exact Hp|]. split.
  - destruct (mapM_permutation ip_to_int _ _ (Permutation_sym Hp) ints
                (mapM_parse_format ints Ha)) as (outs & Hout & Hperm).
    exists outs. split; [exact Hout | now apply Permutation_sym].
  - intro Hcan. now rewrite (canonical_inputs ips ints Hcan Hints) in Hp.
Qed.

Lemma partition_complete_witness :
  exists ints aggs singles,
    mapM ip_to_int ["10.0.0.7"; "1.1.1.1"; "10.0.0.7"; "10.0.0.9"] = Ok ints /\
    split_subnets ["10.0.0.7"; "1.1.1.1"; "10.0.0.7"; "10.0.0.9"] 24
    = Some (Ok (aggs, singles)) /\
    Permutation (reported aggs singles) (map int_to_ip ints) /\
    (exists outs, mapM ip_to_int (reported aggs singles) = Ok outs /\
                  Permutation outs ints) /\
    (forallb canonical_quad ["10.0.0.7"; "1.1.1.1"; "10.0.0.7"; "10.0.0.9"] = true ->
     Permutation (reported aggs singles)
                 ["10.0.0.7"; "1.1.1.1"; "10.0.0.7"; "10.0.0.9"]).
Proof.
  apply (partition_complete ["10.0.0.7"; "1.1.1.1"; "10.0.0.7"; "10.0.0.9"]).
  reflexivity.
Defined.

(** ** C4: the occupancy ratio *)




Lemma int_to_ip_injective (x y : Z) :
  is_address x -> is_address y -> int_to_ip x = int_to_ip y -> x = y.
Proof.
  intros Hx Hy E. pose proof (parse_format x Hx) as Px.
  rewrite E, (parse_format y Hy) in Px. now injection Px.
Qed.






(** ** Contiguous runs and the global group-by-/24 *)

Lemma key24_monotone (a b : Z) :
  is_address a -> is_address b -> a <= b -> key24 a <= key24 b.
Proof.
  intros Ha Hb Hab. rewrite !key24_network, !network_arith by (assumption || lia).
  apply Z.mul_le_mono_nonneg_l; [apply Z.pow_nonneg; lia|].
  apply Z.div_le_mono; [apply Z.pow_pos_nonneg; lia | exact Hab].
Qed.

(** In a sorted list of addresses the ones of a /24 are contiguous: the
    run that follows the seed is all there is of the seed's /24. *)
Lemma run_is_filter (k : Z) (r : list Z) :
  Zsorted r -> Forall is_address r -> Forall (fun y => k <= key24 y) r ->
  same24_run k r = filter (fun ip => key24 ip =? k) r.
Proof.
  induction r as [|y r IH]; intros Hs Ha Hk; [reflexivity|].
  inversion Hs as [|? ? Hsr Hy]; subst. inversion Ha as [|? ? Hya Hra]; subst.
  inversion Hk as [|? ? Hky Hkr]; subst.
  cbn [same24_run filter]. fold (key24 y).
  destruct (Z.eqb_spec (key24 y) k) as [E|E].
  - f_equal. now apply IH.
  - symmetry. apply filter_none. intros z Hz. apply Z.eqb_neq.
    rewrite Forall_forall in Hy, Hra.
    pose proof (key24_monotone y z Hya (Hra z Hz) (Hy z Hz)). lia.
Qed.

Lemma group_is_filter (x : Z) (r : list Z) :
  Zsorted (x :: r) -> Forall is_address (x :: r) ->
  x :: same24_run (key24 x) r
  = filter (fun ip => key24 ip =? key24 x) (x :: r).
Proof.
  intros Hs Ha. cbn [filter]. rewrite Z.eqb_refl. f_equal.
  inversion Hs as [|? ? Hsr Hx]; subst. inversion Ha as [|? ? Hxa Hra]; subst.
  apply run_is_filter; [exact Hsr | exact Hra |].
  rewrite Forall_forall in *. intros y Hy.
  apply key24_monotone; [exact Hxa | now apply Hra | now apply Hx].
Qed.

Lemma filter_sorted (f : Z -> bool) (l : list Z) :
  Zsorted l -> Zsorted (filter f l).
Proof.
  unfold Zsorted. induction 1 as [|x l _ IH Hx]; cbn [filter]; [constructor|].
  destruct (f x); [|exact IH]. constructor; [exact IH|].
  rewrite Forall_forall in *. intros y Hy. apply filter_In in Hy as [Hy _].
  now apply Hx.
Qed.

Lemma filter_forall {A : Type} (Q : A -> Prop) (f : A -> bool) (l : list A) :
  Forall Q l -> Forall Q (filter f l).
Proof.
  rewrite !Forall_forall. intros H y Hy. apply filter_In in Hy as [Hy _].
  now apply H.
Qed.

Lemma filter_and {A : Type} (f g : A -> bool) (l : list A) :
  filter f (filter g l) = filter (fun x => f x && g x) l.
Proof.
  induction l as [|x l IH]; [reflexivity|]. cbn [filter].
  destruct (g x); cbn [filter]; rewrite ?andb_true_r, ?andb_false_r;
    [destruct (f x)|]; now rewrite IH.
Qed.

Lemma distinct_filter (q : Z -> bool) (l : list Z) :
  distinct (filter q l) = filter q (distinct l).
Proof.
  induction l as [|k r IH]; [reflexivity|]. cbn [filter distinct].
  destruct (q k) eqn:Q; cbn [distinct filter]; rewrite ?Q, IH, !filter_and.
  - f_equal. apply filter_ext. intro x. apply andb_comm.
  - apply filter_ext. intro x. destruct (Z.eqb_spec x k) as [->|_];
      [now rewrite Q | now rewrite andb_true_r].
Qed.

Lemma map_key24_filter (q : Z -> bool) (l : list Z) :
  map key24 (filter (fun ip => q (key24 ip)) l) = filter q (map key24 l).
Proof.
  induction l as [|x l IH]; [reflexivity|]. cbn [filter map].
  destruct (q (key24 x)); cbn [map]; now rewrite IH.
Qed.

(** Removing a group made of the addresses that pass a test leaves the
    addresses that fail it. *)
Lemma remove_filter (p : Z -> bool) (l : list Z) :
  remove_group (filter p l) l = filter (fun ip => negb (p ip)) l.
Proof.
  unfold remove_group. apply filter_ext_in. intros ip Hip. f_equal.
  destruct (p ip) eqn:P.
  - apply member_true, filter_In. now split.
  - destruct (member ip (filter p l)) eqn:M; [|reflexivity].
    apply member_true, filter_In in M as [_ M]. congruence.
Qed.

(** On a sorted list of addresses the groups the loop consumes are the
    global groups, one for each /24. *)
Lemma groups_global (fuel : nat) (l : list Z) :
  (List.length l <= fuel)%nat -> Zsorted l -> Forall is_address l ->
  groups fuel l = group_by_24 l.
Proof.
  revert l. induction fuel as [|fuel IH]; intros l Hlen Hs Ha.
  - destruct l; [reflexivity | cbn in Hlen; lia].
  - destruct l as [|x r]; [reflexivity|].
    cbn [groups]. fold (key24 x). rewrite (group_is_filter x r Hs Ha).
    rewrite remove_filter.
    unfold group_by_24 at 1. cbn [map distinct]. f_equal.
    assert (Hrest : filter (fun ip => negb (key24 ip =? key24 x)) (x :: r)
                    = filter (fun ip => negb (key24 ip =? key24 x)) r).
    { cbn [filter]. now rewrite Z.eqb_refl. }
    rewrite Hrest. rewrite IH.
    + unfold group_by_24.
      rewrite (map_key24_filter (fun k => negb (k =? key24 x)) r).
      rewrite distinct_filter. apply map_ext_in. intros k Hk.
      apply filter_In in Hk as [_ Hk]. rewrite filter_and.
      apply negb_true_iff in Hk. rewrite Z.eqb_sym in Hk.
      cbn [filter]. rewrite Hk. apply filter_ext. intro ip.
      destruct (Z.eqb_spec (key24 ip) k) as [->|_]; [|reflexivity].
      now rewrite Z.eqb_sym, Hk.
    + cbn [List.length] in Hlen.
      pose proof (filter_length_le (fun ip => negb (key24 ip =? key24 x)) r).
      lia.
    + rewrite <- Hrest. now apply filter_sorted.
    + rewrite <- Hrest. now apply filter_forall.
Qed.

(** ** C6: the order of the input does not matter *)

Lemma split_subnets_returns_or_raises (ips : list string) (min_prefix : Z) :
  exists r, split_subnets ips min_prefix = Some r.
Proof.
  unfold split_subnets. destruct (mapM ip_to_int ips) as [ints|e].
  - rewrite split_loop_fuel by apply le_n. eexists. reflexivity.
  - eexists. reflexivity.
Qed.

Lemma split_subnets_permutation_parsed (ips ips' : list string)
    (min_prefix : Z) (ints : list Z) :
  Permutation ips ips' -> mapM ip_to_int ips = Ok ints ->
  split_subnets ips min_prefix = split_subnets ips' min_prefix.
Proof.
  intros Hp Hints.
  destruct (mapM_permutation ip_to_int ips ips' Hp ints Hints)
    as (ints' & Hints' & Hperm).
  unfold split_subnets. rewrite Hints, Hints'.
  now rewrite (sorted_of_permutation ints ints' Hperm).
Qed.

(** C6: [split_subnets] is a function of the sorted addresses only: on a
    permutation of the input it ends as well, and returns the same pair of
    lists whenever it returns one (every outcome is the same once all the
    texts parse; texts that do not parse raise in either order). *)
Theorem permutation_invariant (ips ips' : list string) (min_prefix : Z) :
  Permutation ips ips' ->
  exists r r',
    split_subnets ips min_prefix = Some r /\
    split_subnets ips' min_prefix = Some r' /\
    returned r = returned r' /\
    ((exists ints, mapM ip_to_int ips = Ok ints) -> r = r').
Proof.
  intro Hp.
  destruct (split_subnets_returns_or_raises ips min_prefix) as [r Hr].
  destruct (split_subnets_returns_or_raises ips' min_prefix) as [r' Hr'].
  exists r, r'. split; [exact Hr|]. split; [exact Hr'|].
  destruct (mapM ip_to_int ips) as [ints|e] eqn:E.
  - pose proof (split_subnets_permutation_parsed ips ips' min_prefix ints Hp E) as Q.
    rewrite Hr, Hr' in Q. injection Q as <-. split; [reflexivity|]. reflexivity.
  - split; [|intros [ints Hints]; discriminate Hints].
    destruct (mapM ip_to_int ips') as [ints'|e'] eqn:E'.
    + destruct (mapM_permutation ip_to_int ips' ips (Permutation_sym Hp) ints' E')
        as (ints & Hints & _).
      rewrite E in Hints. discriminate Hints.
    + unfold split_subnets in Hr, Hr'. rewrite E in Hr. rewrite E' in Hr'.
      injection Hr as <-. injection Hr' as <-. reflexivity.
Qed.

Lemma permutation_invariant_witness :
  exists r r',
    split_subnets ["10.0.0.9"; "1.1.1.1"; "10.0.0.7"] 24 = Some r /\
    split_subnets ["1.1.1.1"; "10.0.0.9"; "10.0.0.7"] 24 = Some r' /\
    returned r = returned r' /\
    ((exists ints, mapM ip_to_int ["10.0.0.9"; "1.1.1.1"; "10.0.0.7"] = Ok ints) ->
     r = r').
Proof.
  apply (permutation_invariant ["10.0.0.9"; "1.1.1.1"; "10.0.0.7"]
                               ["1.1.1.1"; "10.0.0.9"; "10.0.0.7"] 24).
  apply perm_swap.
Defined.

(** * Further properties of the code *)

(** ** The blocks of [find_min_subnet] *)

Lemma max_spec (ips_int : list Z) (M : Z) :
  Py.max ips_int = Ok M -> In M ips_int /\ Forall (fun ip => ip <= M) ips_int.
Proof.
  destruct ips_int as [|x r]; [discriminate|]. cbn [Py.max]. intros [= <-].
  assert (G : forall l a, (fold_left Z.max l a = a \/ In (fold_left Z.max l a) l)
                          /\ a <= fold_left Z.max l a
                          /\ Forall (fun ip => ip <= fold_left Z.max l a) l).
  { induction l as [|y l IH]; intro a; cbn [fold_left].
    - split; [now left|]. split; [lia | constructor].
    - destruct (IH (Z.max a y)) as (Hin & Hle & Hall). split; [|split].
      + destruct Hin as [Heq|Hin]; [|right; now right].
        rewrite Heq. destruct (Z.max_spec a y) as [[_ ->]|[_ ->]];
          [right; now left | now left].
      + lia.
      + constructor; [lia | exact Hall]. }
  destruct (G r x) as (Hin & Hle & Hall). split.
  - destruct Hin as [->|Hin]; [now left | now right].
  - constructor; assumption.
Qed.

Lemma same_block_same_quotient (a m s : Z) :
  0 < s -> (s * (m / s) <= a <= s * (m / s) + s - 1 <-> a / s = m / s).
Proof.
  intro Hs. split.
  - intro H. symmetry. apply (Z.div_unique a s (m / s) (a - s * (m / s))); lia.
  - intro E. rewrite <- E.
    pose proof (Z.div_mod a s). pose proof (Z.mod_pos_bound a s Hs). lia.
Qed.

(** X1: the block the loop computes for a 32-bit address [m] and a prefix
    length [P] of [0, 32] holds [m], has [calculate_subnet_size P] addresses,
    starts at a multiple of that size and stays within 32 bits; at 32 it is
    [m] alone, at 0 the whole address space. *)
Theorem block_of_prefix (m P : Z) :
  is_address m -> 0 <= P <= 32 ->
  network_of m P <= m <= broadcast_of m P /\
  broadcast_of m P - network_of m P + 1 = calculate_subnet_size P /\
  network_of m P mod calculate_subnet_size P = 0 /\
  is_address (network_of m P) /\ is_address (broadcast_of m P) /\
  (P = 32 -> network_of m P = m /\ broadcast_of m P = m) /\
  (P = 0 -> network_of m P = 0 /\ broadcast_of m P = 2 ^ 32 - 1).
Proof.
  intros Hm HP.
  destruct (block_aligned m P Hm HP) as (Hs & Hn & Hb & Hin).
  destruct (block_addresses m P Hm HP) as [Hna Hba].
  cbv zeta in Hs, Hn, Hb. set (size := calculate_subnet_size P) in *.
  assert (Hpos : 0 < size) by (rewrite Hs; apply Z.pow_pos_nonneg; lia).
  split; [exact Hin|]. split; [lia|]. split.
  { rewrite Hn, Z.mul_comm. apply Z.mod_mul. lia. }
  split; [exact Hna|]. split; [exact Hba|]. split.
  - intros ->. assert (E : size = 1) by (rewrite Hs; reflexivity).
    rewrite E in Hn, Hb. rewrite Z.div_1_r in Hn. lia.
  - intros ->. assert (E : size = 2 ^ 32) by (rewrite Hs; reflexivity).
    rewrite E in Hn, Hb. unfold is_address in Hm.
    rewrite Z.div_small in Hn by lia. lia.
Qed.

Lemma block_of_prefix_witness :
  network_of 3232235786 29 <= 3232235786 <= broadcast_of 3232235786 29 /\
  broadcast_of 3232235786 29 - network_of 3232235786 29 + 1
  = calculate_subnet_size 29 /\
  network_of 3232235786 29 mod calculate_subnet_size 29 = 0 /\
  is_address (network_of 3232235786 29) /\
  is_address (broadcast_of 3232235786 29) /\
  (29 = 32 -> network_of 3232235786 29 = 3232235786 /\
              broadcast_of 3232235786 29 = 3232235786) /\
  (29 = 0 -> network_of 3232235786 29 = 0 /\
             broadcast_of 3232235786 29 = 2 ^ 32 - 1).
Proof.
  apply (block_of_prefix 3232235786 29); [unfold is_address|]; lia.
Defined.

(** X2: a 32-bit address lies in the block of [m] at prefix length [P]
    exactly when the mask gives it the network address of [m]. *)
Theorem in_block_iff_same_network (a m P : Z) :
  is_address a -> is_address m -> 0 <= P <= 32 ->
  (network_of m P <= a <= broadcast_of m P <-> network_of a P = network_of m P).
Proof.
  intros Ha Hm HP.
  assert (Hpos : 0 < 2 ^ (32 - P)) by (apply Z.pow_pos_nonneg; lia).
  rewrite (broadcast_arith m P Hm HP), (network_arith a P Ha HP),
    (network_arith m P Hm HP).
  rewrite (same_block_same_quotient a m _ Hpos). split.
  - intros ->. reflexivity.
  - intro E. apply Z.mul_reg_l in E; [exact E | lia].
Qed.

Lemma in_block_iff_same_network_witness :
  network_of 3232235786 29 <= 3232235788 <= broadcast_of 3232235786 29 <->
  network_of 3232235788 29 = network_of 3232235786 29.
Proof.
  apply (in_block_iff_same_network 3232235788 3232235786 29);
    unfold is_address; lia.
Defined.

Lemma nested_blocks (m P P' : Z) :
  is_address m -> 0 <= P' <= P -> P <= 32 ->
  network_of m P' <= network_of m P /\ broadcast_of m P <= broadcast_of m P'.
Proof.
  intros Hm HP' HP.
  rewrite (broadcast_arith m P), (broadcast_arith m P'),
    (network_arith m P), (network_arith m P') by (assumption || lia).
  set (s := 2 ^ (32 - P)). set (t := 2 ^ (P - P')).
  assert (Hs : 0 < s) by (apply Z.pow_pos_nonneg; lia).
  assert (Ht : 0 < t) by (apply Z.pow_pos_nonneg; lia).
  assert (E : 2 ^ (32 - P') = s * t).
  { unfold s, t. rewrite <- Z.pow_add_r by lia. f_equal. lia. }
  rewrite E, <- Z.div_div by lia.
  set (q := m / s).
  pose proof (Z.div_mod q t ltac:(lia)) as D.
  pose proof (Z.mod_pos_bound q t Ht) as B.
  split; nia.
Qed.

(** X3: the containment test is monotone: when the block of prefix length
    [P] aligned on the 32-bit address [m] holds the list, so does the block
    of every shorter prefix length. *)
Theorem covers_shorter_prefix (ips_int : list Z) (m P P' : Z) :
  is_address m -> 0 <= P' <= P -> P <= 32 ->
  covers ips_int m P = true -> covers ips_int m P' = true.
Proof.
  intros Hm HP' HP Hc. apply covers_forall. apply covers_forall in Hc.
  destruct (nested_blocks m P P' Hm HP' HP) as [Hn Hb].
  apply Forall_impl with (2 := Hc). intros y Hy. lia.
Qed.

Lemma covers_shorter_prefix_witness :
  covers [3232235786; 3232235788] 3232235786 29 = true /\
  covers [3232235786; 3232235788] 3232235786 24 = true.
Proof.
  split; [reflexivity|].
  apply (covers_shorter_prefix [3232235786; 3232235788] 3232235786 29 24);
    [unfold is_address; lia | lia | lia | reflexivity].
Defined.

Lemma covers_min_max (ips_int : list Z) (m M P : Z) :
  Py.min ips_int = Ok m -> Py.max ips_int = Ok M ->
  covers ips_int m P = covers [m; M] m P.
Proof.
  intros Hm HM.
  destruct (min_spec _ _ Hm) as [Hmin Hlow].
  destruct (max_spec _ _ HM) as [Hmax Hhigh].
  rewrite Forall_forall in Hlow, Hhigh.
  destruct (covers [m; M] m P) eqn:E.
  - apply covers_forall. apply covers_forall in E.
    inversion E as [|? ? Em E']; subst. inversion E' as [|? ? EM _]; subst.
    apply Forall_forall. intros y Hy.
    specialize (Hlow y Hy). specialize (Hhigh y Hy). lia.
  - destruct (covers ips_int m P) eqn:C; [|reflexivity].
    apply covers_forall in C. rewrite Forall_forall in C.
    assert (covers [m; M] m P = true) as E'.
    { apply covers_forall. repeat constructor; apply C; assumption. }
    congruence.
Qed.

Lemma search_prefix_ext (l1 l2 : list Z) (m floor : Z) (k : nat) :
  (forall P, covers l1 m P = covers l2 m P) ->
  search_prefix l1 m floor k = search_prefix l2 m floor k.
Proof.
  intro H. induction k as [|k IH]; [reflexivity|]. cbn [search_prefix].
  fold (covers l1 m (floor + Z.of_nat k)). fold (covers l2 m (floor + Z.of_nat k)).
  now rewrite H, IH.
Qed.

(** X4: [find_min_subnet] looks at the extremes only: for any non-empty list
    of integers and any floor, the outcome (result or exception) is the one
    for the two-element list of its minimum and its maximum. *)
Theorem find_min_subnet_min_max (ips_int : list Z) (floor m M : Z) :
  Py.min ips_int = Ok m -> Py.max ips_int = Ok M ->
  find_min_subnet ips_int floor = find_min_subnet [m; M] floor.
Proof.
  intros Hm HM.
  assert (HmM : m <= M).
  { destruct (min_spec _ _ Hm) as [Hin _]. destruct (max_spec _ _ HM) as [_ Hh].
    rewrite Forall_forall in Hh. now apply Hh. }
  unfold find_min_subnet. rewrite Hm, HM. cbn [Py.min Py.max fold_left bind].
  rewrite Z.min_l by exact HmM.
  rewrite (search_prefix_ext ips_int [m; M] m floor);
    [reflexivity | intro P; now apply covers_min_max].
Qed.

Lemma find_min_subnet_min_max_witness :
  find_min_subnet [3232235788; 3232235786; 3232235787] 24
  = find_min_subnet [3232235786; 3232235788] 24.
Proof.
  apply (find_min_subnet_min_max [3232235788; 3232235786; 3232235787] 24);
    reflexivity.
Defined.

(** X5: [find_min_subnet] raises exactly for an empty list ([min()] of an
    empty sequence) and for a floor above 32 (negative shift count), a
    [ValueError] in both cases; for any other input, 32-bit or not, it returns
    a tuple whose prefix length lies in [floor, 32]. *)
Theorem find_min_subnet_outcome (ips_int : list Z) (floor : Z) :
  (ips_int = [] \/ 32 < floor -> find_min_subnet ips_int floor = Raise ValueError) /\
  (ips_int <> [] -> floor <= 32 ->
   exists c s e P, find_min_subnet ips_int floor = Ok (c, s, e, P) /\
                   floor <= P <= 32).
Proof.
  split.
  - intros [->|Hf]; [reflexivity|].
    destruct ips_int as [|x r]; [reflexivity|].
    now apply (find_min_subnet_floor_above_32 (x :: r) floor (fold_left Z.min r x)).
  - intros Hne Hf. destruct ips_int as [|x r]; [congruence|].
    unfold find_min_subnet. cbn [Py.min Py.max bind].
    set (m := fold_left Z.min r x).
    pose proof (search_prefix_spec (x :: r) m floor (Z.to_nat (32 - floor + 1))) as S.
    rewrite search_range in S by lia.
    destruct (search_prefix (x :: r) m floor (Z.to_nat (32 - floor + 1))) as [t|].
    + destruct S as (P & HP & _ & -> & _). unfold subnet_tuple.
      do 4 eexists. split; [reflexivity | lia].
    + unfold Py.shl. replace (32 - floor <? 0) with false
        by (symmetry; apply Z.ltb_ge; lia).
      cbn [bind]. unfold subnet_tuple. do 4 eexists. split; [reflexivity | lia].
Qed.

Lemma find_min_subnet_outcome_witness :
  find_min_subnet [] 24 = Raise ValueError /\
  find_min_subnet [167772161] 33 = Raise ValueError /\
  exists c s e P, find_min_subnet [167772161; 167772360] 28 = Ok (c, s, e, P) /\
                  28 <= P <= 32.
Proof.
  split; [|split].
  - exact (proj1 (find_min_subnet_outcome [] 24) (or_introl eq_refl)).
  - apply (proj1 (find_min_subnet_outcome [167772161] 33)). right. lia.
  - apply (proj2 (find_min_subnet_outcome [167772161; 167772360] 28));
      [discriminate | lia].
Defined.

Lemma block_32 (m : Z) :
  is_address m -> network_of m 32 = m /\ broadcast_of m 32 = m.
Proof.
  intro Hm. destruct (block_aligned m 32 Hm) as (Hs & Hn & Hb & _); [lia|].
  cbv zeta in *. rewrite Hs in Hn, Hb. change (2 ^ (32 - 32)) with 1 in *.
  rewrite Z.div_1_r in Hn. lia.
Qed.

(** X6: a /32 is what a list of one repeated 32-bit address gets, and only
    such a list: [find_min_subnet] then returns the address itself as network
    and broadcast, with the text [address/32]; conversely, under a floor below
    32, a returned prefix length of 32 means all the addresses are equal. *)
Theorem find_min_subnet_slash_32 (ips_int : list Z) (floor m : Z) :
  Py.min ips_int = Ok m -> is_address m -> floor <= 32 ->
  (Forall (eq m) ips_int ->
   find_min_subnet ips_int floor
   = Ok ((int_to_ip m ++ "/32")%string, int_to_ip m, int_to_ip m, 32)) /\
  (floor < 32 ->
   (exists c s e, find_min_subnet ips_int floor = Ok (c, s, e, 32)) ->
   Forall (eq m) ips_int).
Proof.
  intros Hm Ha Hf. destruct (block_32 m Ha) as [Hn Hb].
  assert (C : covers ips_int m 32 = true <-> Forall (eq m) ips_int).
  { rewrite covers_forall, Hn, Hb. rewrite !Forall_forall.
    split; intros H y Hy; specialize (H y Hy); lia. }
  split.
  - intro Hall. apply C in Hall.
    destruct (find_min_subnet_found ips_int floor m 32 Hm ltac:(lia) Hall)
      as (P & Hret & HP & _ & Hmax).
    assert (P = 32) by (specialize (Hmax 32 ltac:(lia) Hall); lia). subst P.
    unfold returns_block in Hret. rewrite Hret, Hn, Hb. reflexivity.
  - intros Hlt (c & s & e & Hret). apply C.
    destruct (covers ips_int m 32) eqn:E; [reflexivity|]. exfalso.
    unfold find_min_subnet in Hret.
    destruct (max_of_nonempty _ _ Hm) as [M HM]. rewrite Hm, HM in Hret.
    cbn [bind] in Hret.
    pose proof (search_prefix_spec ips_int m floor (Z.to_nat (32 - floor + 1))) as S.
    rewrite search_range in S by lia.
    destruct (search_prefix ips_int m floor (Z.to_nat (32 - floor + 1))) as [t|].
    + destruct S as (P & HP & Hc & -> & _). unfold subnet_tuple in Hret.
      apply (f_equal (fun r => match r with
                               | Ok (_, _, _, p) => p
                               | Raise _ => 0
                               end)) in Hret.
      cbv beta iota in Hret. subst P. congruence.
    + unfold Py.shl in Hret. replace (32 - floor <? 0) with false in Hret
        by (symmetry; apply Z.ltb_ge; lia).
      cbn [bind] in Hret. unfold subnet_tuple in Hret.
      apply (f_equal (fun r => match r with
                               | Ok (_, _, _, p) => p
                               | Raise _ => 0
                               end)) in Hret.
      cbv beta iota in Hret. lia.
Qed.

Lemma find_min_subnet_slash_32_witness :
  find_min_subnet [16843009; 16843009] 24
  = Ok ("1.1.1.1/32", "1.1.1.1", "1.1.1.1", 32) /\
  Forall (eq 16843009) [16843009; 16843009].
Proof.
  assert (A : is_address 16843009) by (unfold is_address; lia).
  destruct (find_min_subnet_slash_32 [16843009; 16843009] 24 16843009
              eq_refl A ltac:(lia)) as [H1 H2].
  assert (F : Forall (eq 16843009) [16843009; 16843009])
    by (repeat constructor).
  split.
  - exact (H1 F).
  - apply H2; [lia|]. exists "1.1.1.1/32", "1.1.1.1", "1.1.1.1". exact (H1 F).
Defined.

(** ** The value [ip_to_int] builds and the text [int_to_ip] writes *)

Lemma disjoint_lor (x y : Z) : Z.land x y = 0 -> Z.lor x y = x + y.
Proof.
  intro H. rewrite <- Z.lxor_lor by exact H.
  symmetry. now apply Z.add_nocarry_lxor.
Qed.

Lemma pack_sum (a b c d : Z) :
  is_octet a = true -> is_octet b = true -> is_octet c = true ->
  is_octet d = true ->
  pack a b c d = a * 2 ^ 24 + b * 2 ^ 16 + c * 2 ^ 8 + d.
Proof.
  intros Ha Hb Hc Hd. unfold pack.
  assert (D1 : Z.land (Z.shiftl a 24) (Z.shiftl b 16) = 0).
  { apply Z.bits_inj'. intros i Hi.
    rewrite Z.land_spec, !Z.shiftl_spec, Z.bits_0 by lia.
    destruct (Z.lt_ge_cases i 24).
    - rewrite (octet_bits a) by (assumption || lia). reflexivity.
    - rewrite (octet_bits b) by (assumption || lia). apply andb_false_r. }
  assert (D2 : Z.land (Z.lor (Z.shiftl a 24) (Z.shiftl b 16)) (Z.shiftl c 8) = 0).
  { apply Z.bits_inj'. intros i Hi.
    rewrite Z.land_spec, Z.lor_spec, !Z.shiftl_spec, Z.bits_0 by lia.
    destruct (Z.lt_ge_cases i 16).
    - rewrite (octet_bits a), (octet_bits b) by (assumption || lia). reflexivity.
    - rewrite (octet_bits c) by (assumption || lia). apply andb_false_r. }
  assert (D3 : Z.land (Z.lor (Z.lor (Z.shiftl a 24) (Z.shiftl b 16))
                             (Z.shiftl c 8)) d = 0).
  { apply Z.bits_inj'. intros i Hi.
    rewrite Z.land_spec, !Z.lor_spec, !Z.shiftl_spec, Z.bits_0 by lia.
    destruct (Z.lt_ge_cases i 8).
    - rewrite (octet_bits a), (octet_bits b), (octet_bits c)
        by (assumption || lia).
      reflexivity.
    - rewrite (octet_bits d) by (assumption || lia). apply andb_false_r. }
  rewrite (disjoint_lor _ _ D3), (disjoint_lor _ _ D2), (disjoint_lor _ _ D1).
  rewrite !Z.shiftl_mul_pow2 by lia. reflexivity.
Qed.

(** X7: the four components are composed big-endian: when the first four
    dot-separated components of a text read as the octets [a], [b], [c], [d]
    (each in [0, 255]), [ip_to_int] returns [a*2^24 + b*2^16 + c*2^8 + d],
    a 32-bit value. *)
Theorem ip_to_int_big_endian (s : string) (a b c d : Z) (rest : list Z) :
  mapM Py.int (Py.split "." s) = Ok (a :: b :: c :: d :: rest) ->
  is_octet a = true -> is_octet b = true -> is_octet c = true ->
  is_octet d = true ->
  ip_to_int s = Ok (a * 2 ^ 24 + b * 2 ^ 16 + c * 2 ^ 8 + d) /\
  is_address (a * 2 ^ 24 + b * 2 ^ 16 + c * 2 ^ 8 + d).
Proof.
  intros H Ha Hb Hc Hd. rewrite <- pack_sum by assumption. split.
  - now apply (ip_to_int_components s a b c d rest).
  - now apply pack_address.
Qed.

Lemma ip_to_int_big_endian_witness :
  ip_to_int "192.168.1.10" = Ok (192 * 2 ^ 24 + 168 * 2 ^ 16 + 1 * 2 ^ 8 + 10) /\
  is_address (192 * 2 ^ 24 + 168 * 2 ^ 16 + 1 * 2 ^ 8 + 10).
Proof.
  apply (ip_to_int_big_endian "192.168.1.10" 192 168 1 10 []); reflexivity.
Defined.

Lemma field_of_low_bits (n k : Z) :
  0 <= k -> k + 8 <= 32 ->
  Z.land (Z.shiftr (n mod 2 ^ 32) k) 255 = Z.land (Z.shiftr n k) 255.
Proof.
  intros Hk Hk8. apply Z.bits_inj'. intros i Hi.
  rewrite !Z.land_spec, !Z.shiftr_spec, testbit_255 by lia.
  destruct (Z.lt_ge_cases i 8).
  - rewrite Z.mod_pow2_bits_low by lia. reflexivity.
  - replace (i <? 8) with false by (symmetry; apply Z.ltb_ge; lia).
    now rewrite !andb_false_r.
Qed.

Lemma land_255_octet (x : Z) : is_octet (Z.land x 255) = true.
Proof.
  apply is_octet_range. change (Z.land x 255) with (Z.land x (Z.ones 8)).
  rewrite Z.land_ones by lia. change (2 ^ 8) with 256.
  pose proof (Z.mod_pos_bound x 256 ltac:(lia)). lia.
Qed.

Lemma canonical_octet_str (o : Z) :
  is_octet o = true -> canonical_octet (Py.str o) = true.
Proof.
  intro Ho. apply is_octet_range in Ho.
  assert (T : forallb (fun n => canonical_octet (Py.str (Z.of_nat n)))
                      (seq 0 256) = true) by (vm_compute; reflexivity).
  rewrite forallb_forall in T. specialize (T (Z.to_nat o)).
  rewrite Z2Nat.id in T by lia. apply T. apply in_seq. lia.
Qed.

(** X8: [int_to_ip] reads the low 32 bits only and always writes a canonical
    dotted quad: for every integer [n], negative or beyond 32 bits, the text
    is that of [n mod 2^32], made of four numerals of [0, 255] without sign or
    leading zero, and it parses back to [n mod 2^32]. *)
Theorem int_to_ip_low_32_bits (n : Z) :
  int_to_ip n = int_to_ip (n mod 2 ^ 32) /\
  canonical_quad (int_to_ip n) = true /\
  ip_to_int (int_to_ip n) = Ok (n mod 2 ^ 32).
Proof.
  assert (E : int_to_ip n = int_to_ip (n mod 2 ^ 32)).
  { unfold int_to_ip.
    rewrite !field_of_low_bits by lia.
    rewrite <- (Z.shiftr_0_r (n mod 2 ^ 32)), field_of_low_bits by lia.
    now rewrite Z.shiftr_0_r. }
  split; [exact E|]. split.
  - unfold canonical_quad. rewrite split_int_to_ip. cbn [forallb].
    rewrite !canonical_octet_str by apply land_255_octet. reflexivity.
  - rewrite E. apply parse_format. unfold is_address.
    apply Z.mod_pos_bound. lia.
Qed.

(** ** [split_subnets]: errors and lists without a shared /24 *)

Lemma mapM_app_raise {A B : Type} (f : A -> result B) (pre post : list A)
    (x : A) (ys : list B) (e : exn) :
  mapM f pre = Ok ys -> f x = Raise e -> mapM f (pre ++ x :: post) = Raise e.
Proof.
  revert ys. induction pre as [|p pre IH]; intros ys Hpre Hx.
  - cbn [List.app mapM]. now rewrite Hx.
  - apply mapM_cons in Hpre as (y & ys' & Hp & Hpre & _).
    cbn [List.app mapM]. rewrite Hp. cbn [bind]. now rewrite (IH ys' Hpre Hx).
Qed.

Lemma ip_to_int_raises (s : string) (e : exn) :
  ip_to_int s = Raise e -> e = ValueError \/ e = IndexError.
Proof.
  unfold ip_to_int. destruct (all_numeric s) eqn:N; unfold all_numeric in N.
  - destruct (mapM_numeric _ N) as (vs & -> & _). cbn [bind].
    destruct vs as [|a [|b [|c [|d r]]]]; cbn; intro H;
      try discriminate H; injection H as <-; now right.
  - rewrite (mapM_not_numeric _ N). cbn [bind]. intros [= <-]. now left.
Qed.

(** X9: the texts are all parsed before any grouping, in list order: when a
    text fails to parse and the ones before it parse, [split_subnets] raises
    that text's exception, a [ValueError] or an [IndexError], whatever follows
    it and whatever the floor. *)
Theorem split_subnets_first_bad_text (pre post : list string) (s : string)
    (ints : list Z) (e : exn) (min_prefix : Z) :
  mapM ip_to_int pre = Ok ints -> ip_to_int s = Raise e ->
  split_subnets (pre ++ s :: post) min_prefix = Some (Raise e) /\
  (e = ValueError \/ e = IndexError).
Proof.
  intros Hpre Hs. split; [|now apply (ip_to_int_raises s)].
  unfold split_subnets. now rewrite (mapM_app_raise _ _ _ _ _ _ Hpre Hs).
Qed.

Lemma split_subnets_first_bad_text_witness :
  split_subnets (["10.0.0.1"] ++ "10.0.0" :: ["x.0.0.1"]) 24
  = Some (Raise IndexError) /\
  (IndexError = ValueError \/ IndexError = IndexError).
Proof.
  apply (split_subnets_first_bad_text ["10.0.0.1"] ["x.0.0.1"] "10.0.0"
                                      [167772161] IndexError 24);
    reflexivity.
Defined.

Lemma split_loop_singles (fuel : nat) (l : list Z) (min_prefix : Z)
    (aggs : list AggregatedSubnet) (singles : list string) :
  NoDup (map key24 l) -> (List.length l <= fuel)%nat ->
  split_loop fuel l min_prefix aggs singles
  = Some (Ok (aggs, singles ++ map int_to_ip l)).
Proof.
  revert l singles. induction fuel as [|fuel IH]; intros l singles Hnd Hlen.
  - destruct l; [|cbn in Hlen; lia]. cbn. now rewrite List.app_nil_r.
  - destruct l as [|x r]; [cbn; now rewrite List.app_nil_r|].
    cbn [map] in Hnd. inversion Hnd as [|? ? Hx Hr]; subst.
    assert (Hrun : same24_run (Z.land x 0xFFFFFF00) r = []).
    { destruct r as [|y r']; [reflexivity|]. cbn [same24_run].
      destruct (Z.eqb_spec (Z.land y 0xFFFFFF00) (Z.land x 0xFFFFFF00)) as [E|E];
        [|reflexivity].
      exfalso. apply Hx. left. exact E. }
    assert (Hrem : remove_group [x] (x :: r) = r).
    { unfold remove_group. cbn [filter member existsb].
      rewrite Z.eqb_refl. cbn [orb negb]. apply filter_all.
      intros y Hy. apply negb_true_iff. rewrite orb_false_r.
      apply Z.eqb_neq. intros ->. apply Hx. now apply in_map. }
    cbn [split_loop]. rewrite Hrun, Hrem. cbn [List.length Nat.eqb].
    rewrite IH; [|exact Hr | cbn in Hlen; lia].
    now rewrite <- List.app_assoc.
Qed.

(** X10: when the texts parse and no two of the values share a /24 (their
    [AND 0xFFFFFF00] are pairwise distinct), [split_subnets] aggregates
    nothing, under any floor: it returns no subnet and every address as a
    singleton, in ascending order and in canonical text. *)
Theorem split_subnets_all_singletons (ips : list string) (ints : list Z)
    (min_prefix : Z) :
  mapM ip_to_int ips = Ok ints -> NoDup (map key24 ints) ->
  split_subnets ips min_prefix = Some (Ok ([], map int_to_ip (sorted ints))).
Proof.
  intros Hints Hnd. unfold split_subnets. rewrite Hints.
  apply split_loop_singles; [|apply le_n].
  apply (Permutation_NoDup (l := map key24 ints)); [|exact Hnd].
  apply Permutation_map, sorted_permutation.
Qed.

Lemma split_subnets_all_singletons_witness :
  split_subnets ["2.2.2.2"; "1.1.1.1"] 24
  = Some (Ok ([], map int_to_ip (sorted [33686018; 16843009]))).
Proof.
  apply (split_subnets_all_singletons ["2.2.2.2"; "1.1.1.1"]
                                      [33686018; 16843009] 24).
  - reflexivity.
  - repeat constructor; cbn; intuition discriminate.
Defined.

(** ** [split_subnets] under any floor *)

Lemma aggregate_members (g : list Z) (min_prefix : Z) (a : AggregatedSubnet) :
  aggregate g min_prefix = Ok a -> current_ips a = map int_to_ip g.
Proof.
  unfold aggregate.
  destruct (find_min_subnet g min_prefix) as [[[[c s] e] P]|]; [|discriminate].
  cbn [bind]. cbv beta iota zeta.
  destruct (percentage _ _) as [q|]; [|discriminate]. cbn [bind].
  intros [= <-]. reflexivity.
Qed.

Lemma find_min_subnet_prefix_range (ips_int : list Z) (floor m : Z) :
  Py.min ips_int = Ok m -> Forall is_address ips_int -> floor <= 32 ->
  exists c s e P,
    find_min_subnet ips_int floor = Ok (c, s, e, P) /\ 0 <= P <= 32.
Proof.
  intros Hm Ha Hf.
  assert (Hma : is_address m).
  { destruct (min_spec _ _ Hm) as [Hin _]. rewrite Forall_forall in Ha.
    now apply Ha. }
  pose proof (covers_whole_space ips_int m Hma Ha) as C0.
  destruct (Z.le_gt_cases floor 0) as [Hle|Hgt].
  - destruct (find_min_subnet_found ips_int floor m 0 Hm ltac:(lia) C0)
      as (P & Hret & HP & _ & Hmax).
    exists (int_to_ip (network_of m P) ++ "/" ++ Py.str P)%string,
      (int_to_ip (network_of m P)), (int_to_ip (broadcast_of m P)), P.
    split; [exact Hret|]. specialize (Hmax 0 ltac:(lia) C0). lia.
  - assert (N : ips_int <> []) by (destruct ips_int; [discriminate | discriminate]).
    unfold find_min_subnet.
    destruct (max_of_nonempty _ _ Hm) as [M HM]. rewrite Hm, HM. cbn [bind].
    pose proof (search_prefix_spec ips_int m floor (Z.to_nat (32 - floor + 1))) as S.
    rewrite search_range in S by lia.
    destruct (search_prefix ips_int m floor (Z.to_nat (32 - floor + 1))) as [t|].
    + destruct S as (P & HP & _ & -> & _). unfold subnet_tuple.
      do 4 eexists. split; [reflexivity | lia].
    + unfold Py.shl. replace (32 - floor <? 0) with false
        by (symmetry; apply Z.ltb_ge; lia).
      cbn [bind]. unfold subnet_tuple. do 4 eexists. split; [reflexivity | lia].
Qed.

Lemma aggregate_total (g : list Z) (min_prefix : Z) :
  g <> [] -> Forall is_address g -> min_prefix <= 32 ->
  exists a, aggregate g min_prefix = Ok a.
Proof.
  intros Hne Ha Hf. destruct g as [|x r]; [congruence|].
  destruct (find_min_subnet_prefix_range (x :: r) min_prefix
              (fold_left Z.min r x) eq_refl Ha Hf)
    as (c & s & e & P & Hret & HP).
  unfold aggregate. rewrite Hret. cbn [bind]. cbv beta iota zeta.
  assert (Hsize : calculate_subnet_size P = 2 ^ (32 - P)).
  { unfold calculate_subnet_size.
    replace (P <? 0) with false by (symmetry; apply Z.ltb_ge; lia).
    replace (P >? 32) with false
      by (symmetry; rewrite Z.gtb_ltb; apply Z.ltb_ge; lia).
    reflexivity. }
  rewrite Hsize, percentage_ok by (apply Z.pow_pos_nonneg; lia).
  cbn [bind]. eexists. reflexivity.
Qed.

Lemma aggregate_floor_above_32 (g : list Z) (min_prefix : Z) :
  g <> [] -> 32 < min_prefix -> aggregate g min_prefix = Raise ValueError.
Proof.
  intros Hne Hf. destruct g as [|x r]; [congruence|]. unfold aggregate.
  now rewrite (find_min_subnet_floor_above_32 (x :: r) min_prefix
                 (fold_left Z.min r x) eq_refl Hf).
Qed.

Lemma sorted_addresses (ints : list Z) :
  Forall is_address ints -> Forall is_address (sorted ints).
Proof.
  rewrite !Forall_forall. intros H y Hy. apply H.
  apply (Permutation_in _ (Permutation_sym (sorted_permutation ints))).
  exact Hy.
Qed.

Lemma members_of_aggregates (gs : list (list Z)) (min_prefix : Z)
    (aggs : list AggregatedSubnet) :
  Forall2 (fun g a => aggregate g min_prefix = Ok a) gs aggs ->
  map current_ips aggs = map (map int_to_ip) gs.
Proof.
  induction 1 as [|g a gs aggs Hga _ IH]; [reflexivity|].
  cbn [map]. now rewrite IH, (aggregate_members g min_prefix a Hga).
Qed.

(** What [split_subnets] returns for 32-bit addresses under a floor of at
    most 32, in terms of the groups the loop consumes. *)
Lemma split_subnets_floor (ips : list string) (ints : list Z) (min_prefix : Z) :
  mapM ip_to_int ips = Ok ints -> Forall is_address ints -> min_prefix <= 32 ->
  exists gs aggs,
    split_subnets ips min_prefix
    = Some (Ok (aggs, map (fun g => int_to_ip (hd 0 g)) (filter single gs))) /\
    map current_ips aggs = map (map int_to_ip) (filter multi gs) /\
    gs = groups (List.length (sorted ints)) (sorted ints) /\
    List.concat gs = sorted ints /\
    Forall same_network gs.
Proof.
  intros Hints Ha Hf. unfold split_subnets. rewrite Hints.
  rewrite split_loop_fuel by apply le_n.
  remember (groups (List.length (sorted ints)) (sorted ints)) as gs eqn:Egs.
  destruct (groups_sorted (List.length (sorted ints)) (sorted ints)
              (sorted_Zsorted ints) (le_n _)) as [Hc Hn].
  rewrite <- Egs in Hc, Hn.
  assert (Haddr : Forall (Forall is_address) gs).
  { apply concat_parts_forall. rewrite Hc. now apply sorted_addresses. }
  destruct (emit_total gs min_prefix [] []) as (aggs & singles & He).
  { rewrite Forall_forall in *. intros g Hg _.
    apply aggregate_total; [exact (proj1 (Hn g Hg)) | now apply Haddr | exact Hf]. }
  destruct (emit_spec _ _ _ _ _ _ He) as (new & Ea & Hf2 & Es).
  cbn [List.app] in Ea, Es. subst aggs singles.
  exists gs, new. rewrite He. split; [reflexivity|].
  split; [now apply (members_of_aggregates _ min_prefix)|].
  split; [reflexivity|]. split; [exact Hc | exact Hn].
Qed.

(** ** C5: the contiguous runs are the global groups *)

(** C5 (as stated): for an input list the code accepts, an octet of 256, the
    partition is not the global group-by-/24. The values are 5, 300 and
    2^32 + 5; the /24 of the last one is that of 5, but 300 stands between
    them in the sorted list, so the loop returns three singletons where the
    global grouping puts 5 and 2^32 + 5 together. *)
Lemma out_of_range_octets_break_contiguity :
  mapM ip_to_int ["0.0.0.5"; "0.0.1.44"; "256.0.0.5"] = Ok [5; 300; 4294967301] /\
  group_by_24 (sorted [5; 300; 4294967301]) = [[5; 4294967301]; [300]] /\
  split_subnets ["0.0.0.5"; "0.0.1.44"; "256.0.0.5"] 24
  = Some (Ok ([], ["0.0.0.5"; "0.0.1.44"; "0.0.0.5"])) /\
  ~ partition_is_global ["0.0.0.5"; "0.0.1.44"; "256.0.0.5"] 24.
Proof.
  split; [reflexivity|]. split; [reflexivity|]. split; [reflexivity|].
  intro H. specialize (H [5; 300; 4294967301] eq_refl).
  vm_compute in H. discriminate H.
Qed.

(** C5 (amended): for every list of well-formed dotted quads (octets in
    [0, 255]) and every floor, the groups the loop of [split_subnets] consumes
    are the global group-by-/24 of the sorted addresses, each group holding
    every address of its /24, and the outcome is what these global groups
    give; under a floor of at most 32 the aggregated subnets list the global
    groups of two or more addresses, and the singletons are the global groups
    of one. *)
Theorem contiguous_runs_are_global_groups (ips : list string) (min_prefix : Z) :
  forallb well_formed ips = true ->
  exists ints,
    mapM ip_to_int ips = Ok ints /\
    groups (List.length (sorted ints)) (sorted ints) = group_by_24 (sorted ints) /\
    split_subnets ips min_prefix
    = Some (emit (group_by_24 (sorted ints)) min_prefix [] []) /\
    (min_prefix <= 32 ->
     exists aggs singles,
       split_subnets ips min_prefix = Some (Ok (aggs, singles)) /\
       map current_ips aggs
       = map (map int_to_ip) (filter multi (group_by_24 (sorted ints))) /\
       singles
       = map int_to_ip (List.concat (filter single (group_by_24 (sorted ints))))).
Proof.
  intro H. destruct (mapM_well_formed ips H) as (ints & Hints & Ha).
  assert (G : groups (List.length (sorted ints)) (sorted ints)
              = group_by_24 (sorted ints)).
  { apply groups_global;
      [apply le_n | apply sorted_Zsorted | now apply sorted_addresses]. }
  exists ints. split; [exact Hints|]. split; [exact G|]. split.
  - unfold split_subnets. rewrite Hints.
    rewrite split_loop_fuel by apply le_n. now rewrite G.
  - intro Hf.
    destruct (split_subnets_floor ips ints min_prefix Hints Ha Hf)
      as (gs & aggs & Hret & Hm & Hgs & _ & _).
    rewrite G in Hgs. subst gs.
    exists aggs, (map (fun g => int_to_ip (hd 0 g))
                      (filter single (group_by_24 (sorted ints)))).
    split; [exact Hret|]. split; [exact Hm|]. apply singles_of_groups.
Qed.

Lemma contiguous_runs_are_global_groups_witness :
  exists aggs,
    split_subnets ["10.0.0.9"; "10.0.1.1"; "10.0.0.7"; "10.0.0.8"] 24
    = Some (Ok (aggs, ["10.0.1.1"])) /\
    map current_ips aggs = [["10.0.0.7"; "10.0.0.8"; "10.0.0.9"]].
Proof.
  destruct (contiguous_runs_are_global_groups
              ["10.0.0.9"; "10.0.1.1"; "10.0.0.7"; "10.0.0.8"] 24 eq_refl)
    as (ints & Hints & _ & _ & Hret).
  vm_compute in Hints. injection Hints as <-.
  destruct (Hret ltac:(lia)) as (aggs & singles & Hs & Hm & Hsingles).
  exists aggs. vm_compute in Hsingles. rewrite Hsingles in Hs.
  split; [exact Hs|]. rewrite Hm. vm_compute. reflexivity.
Defined.

(** X11: for well-formed dotted-quad inputs [split_subnets] returns under
    every floor of at most 32, not only under 24 (no exception, no division by
    zero), and what it reports, aggregated members and singletons together,
    is the input, each occurrence once, in canonical text. *)
Theorem split_subnets_any_floor (ips : list string) (min_prefix : Z) :
  forallb well_formed ips = true -> min_prefix <= 32 ->
  exists ints aggs singles,
    mapM ip_to_int ips = Ok ints /\
    split_subnets ips min_prefix = Some (Ok (aggs, singles)) /\
    Permutation (reported aggs singles) (map int_to_ip ints).
Proof.
  intros H Hf. destruct (mapM_well_formed ips H) as (ints & Hints & Ha).
  destruct (split_subnets_floor ips ints min_prefix Hints Ha Hf)
    as (gs & aggs & Hret & Hm & _ & Hc & _).
  exists ints, aggs, (map (fun g => int_to_ip (hd 0 g)) (filter single gs)).
  split; [exact Hints|]. split; [exact Hret|].
  unfold reported. rewrite Hm, singles_of_groups, <- concat_map, <- map_app.
  apply Permutation_map.
  eapply Permutation_trans; [apply concat_single_multi|].
  rewrite Hc. apply Permutation_sym, sorted_permutation.
Qed.

Lemma split_subnets_any_floor_witness :
  exists ints aggs singles,
    mapM ip_to_int ["10.0.0.200"; "10.0.0.1"; "10.0.1.1"] = Ok ints /\
    split_subnets ["10.0.0.200"; "10.0.0.1"; "10.0.1.1"] 28
    = Some (Ok (aggs, singles)) /\
    Permutation (reported aggs singles) (map int_to_ip ints).
Proof.
  apply (split_subnets_any_floor ["10.0.0.200"; "10.0.0.1"; "10.0.1.1"] 28);
    [reflexivity | lia].
Defined.

Lemma Zsorted_app_intro (l1 l2 : list Z) :
  Zsorted l1 -> Zsorted l2 -> (forall a b, In a l1 -> In b l2 -> a <= b) ->
  Zsorted (l1 ++ l2).
Proof.
  unfold Zsorted. intros H1 H2 H. induction H1 as [|x l1 _ IH Hx]; [exact H2|].
  cbn [List.app]. constructor.
  - apply IH. intros a b Ha Hb. apply H; [now right | exact Hb].
  - apply Forall_app. split; [exact Hx|].
    apply Forall_forall. intros b Hb. apply H; [now left | exact Hb].
Qed.

Lemma concat_filter_incl {A : Type} (f : list A -> bool) (gs : list (list A))
    (x : A) :
  In x (List.concat (filter f gs)) -> In x (List.concat gs).
Proof.
  rewrite !in_concat. intros (g & Hg & Hx). exists g.
  apply filter_In in Hg as [Hg _]. now split.
Qed.

Lemma concat_filter_sorted (f : list Z -> bool) (gs : list (list Z)) :
  Zsorted (List.concat gs) -> Zsorted (List.concat (filter f gs)).
Proof.
  induction gs as [|g gs IH]; [intros _; constructor|].
  cbn [List.concat filter]. intro H.
  apply Zsorted_app in H as (Hg & Hgs & Hcross).
  destruct (f g); [|now apply IH]. cbn [List.concat].
  apply Zsorted_app_intro; [exact Hg | now apply IH |].
  intros a b Ha Hb. apply Hcross; [exact Ha|].
  now apply (concat_filter_incl f gs).
Qed.

Lemma multi_length (g : list Z) :
  g <> [] -> multi g = true -> (2 <= List.length g)%nat.
Proof.
  unfold multi, single. destruct g as [|x [|y r]]; cbn; intros Hne H;
    [congruence | discriminate | lia].
Qed.

Lemma mapM_members (aggs : list AggregatedSubnet) (gs : list (list Z)) :
  map current_ips aggs = map (map int_to_ip) gs ->
  Forall (Forall is_address) gs ->
  mapM (fun a => mapM ip_to_int (current_ips a)) aggs = Ok gs.
Proof.
  revert gs. induction aggs as [|a aggs IH]; intros [|g gs] Hm Ha;
    try discriminate Hm; [reflexivity|].
  cbn [map] in Hm. injection Hm as Hg Hrest.
  cbn [mapM]. rewrite Hg, (mapM_parse_format g (Forall_inv Ha)). cbn [bind].
  now rewrite (IH gs Hrest (Forall_inv_tail Ha)).
Qed.

(** X12: what [split_subnets] returns is ordered (well-formed inputs, any
    floor of at most 32): read back with [ip_to_int], every aggregated subnet
    lists at least two members, the members ascend within a subnet and from
    one subnet to the next, and the singletons ascend as well. *)
Theorem split_subnets_ascending (ips : list string) (min_prefix : Z) :
  forallb well_formed ips = true -> min_prefix <= 32 ->
  exists aggs singles members alone,
    split_subnets ips min_prefix = Some (Ok (aggs, singles)) /\
    mapM (fun a => mapM ip_to_int (current_ips a)) aggs = Ok members /\
    mapM ip_to_int singles = Ok alone /\
    Forall (fun g => (2 <= List.length g)%nat) members /\
    Zsorted (List.concat members) /\
    Zsorted alone.
Proof.
  intros H Hf. destruct (mapM_well_formed ips H) as (ints & Hints & Ha).
  destruct (split_subnets_floor ips ints min_prefix Hints Ha Hf)
    as (gs & aggs & Hret & Hm & _ & Hc & Hn).
  assert (Hs : Zsorted (List.concat gs)) by (rewrite Hc; apply sorted_Zsorted).
  assert (Haddr : Forall is_address (List.concat gs))
    by (rewrite Hc; now apply sorted_addresses).
  exists aggs, (map (fun g => int_to_ip (hd 0 g)) (filter single gs)),
    (filter multi gs), (List.concat (filter single gs)).
  split; [exact Hret|]. split.
  { apply mapM_members; [exact Hm|].
    apply Forall_forall. intros g Hg. apply Forall_forall. intros y Hy.
    rewrite Forall_forall in Haddr. apply Haddr.
    apply (concat_filter_incl multi). apply in_concat. now exists g. }
  split.
  { rewrite singles_of_groups. apply mapM_parse_format.
    apply Forall_forall. intros y Hy. rewrite Forall_forall in Haddr.
    apply Haddr. now apply (concat_filter_incl single). }
  split.
  { apply Forall_forall. intros g Hg. apply filter_In in Hg as [Hg M].
    rewrite Forall_forall in Hn. apply multi_length; [|exact M].
    exact (proj1 (Hn g Hg)). }
  split; now apply concat_filter_sorted.
Qed.

Lemma split_subnets_ascending_witness :
  exists aggs,
    split_subnets ["10.0.1.1"; "10.0.0.200"; "9.9.9.9"; "10.0.0.1"] 24
    = Some (Ok (aggs, ["9.9.9.9"; "10.0.1.1"])) /\
    mapM (fun a => mapM ip_to_int (current_ips a)) aggs
    = Ok [[167772161; 167772360]] /\
    mapM ip_to_int ["9.9.9.9"; "10.0.1.1"] = Ok [151587081; 167772417] /\
    Zsorted [167772161; 167772360] /\ Zsorted [151587081; 167772417].
Proof.
  destruct (split_subnets_ascending
              ["10.0.1.1"; "10.0.0.200"; "9.9.9.9"; "10.0.0.1"] 24
              eq_refl ltac:(lia))
    as (aggs & singles & members & alone & Hret & Hm & Ha & _ & Hsm & Hsa).
  assert (E : split_subnets ["10.0.1.1"; "10.0.0.200"; "9.9.9.9"; "10.0.0.1"] 24
              = Some (Ok ([mkAggregated "10.0.0.0/24" "10.0.0.0" "10.0.0.255"
                             ["10.0.0.1"; "10.0.0.200"] 256
                             (inject_Z 2 / inject_Z 256 * inject_Z 100)%Q],
                          ["9.9.9.9"; "10.0.1.1"])))
    by (vm_compute; reflexivity).
  rewrite E in Hret. injection Hret as <- <-.
  vm_compute in Hm. injection Hm as <-. vm_compute in Ha. injection Ha as <-.
  exists [mkAggregated "10.0.0.0/24" "10.0.0.0" "10.0.0.255"
            ["10.0.0.1"; "10.0.0.200"] 256
            (inject_Z 2 / inject_Z 256 * inject_Z 100)%Q].
  split; [exact E|]. split; [reflexivity|]. split; [reflexivity|].
  split; [exact Hsm | exact Hsa].
Defined.

(** ** One entry for each /24 *)

Lemma rest_keys_above (x : Z) (r : list Z) :
  Zsorted (x :: r) -> Forall is_address (x :: r) ->
  Forall (fun y => key24 x < key24 y)
         (skipn (List.length (same24_run (key24 x) r)) r).
Proof.
  intros Hs Ha.
  pose proof (run_prefix (key24 x) r) as Hr.
  remember (same24_run (key24 x) r) as run eqn:Erun.
  remember (skipn (List.length run) r) as rest eqn:Erest.
  destruct rest as [|h t]; [constructor|].
  assert (Hh : key24 h <> key24 x).
  { apply (run_stops (key24 x) r h t). now rewrite <- Erun, <- Erest. }
  apply StronglySorted_inv in Hs as [Hsr Hx].
  pose proof (Forall_inv Ha) as Hxa. pose proof (Forall_inv_tail Ha) as Hra.
  assert (Hin : forall y, In y (h :: t) -> In y r).
  { intros y Hy. rewrite Hr. apply in_or_app. now right. }
  rewrite Hr in Hsr. apply Zsorted_app in Hsr as (_ & Hrest & _).
  rewrite Forall_forall in Hx, Hra.
  assert (Kh : key24 x < key24 h).
  { pose proof (key24_monotone x h Hxa (Hra h (Hin h (or_introl eq_refl)))
                  (Hx h (Hin h (or_introl eq_refl)))).
    lia. }
  apply Forall_forall. intros y Hy.
  assert (Hhy : h <= y).
  { destruct Hy as [<-|Hy']; [lia|].
    apply StronglySorted_inv in Hrest as [_ Hall].
    rewrite Forall_forall in Hall. now apply Hall. }
  pose proof (key24_monotone h y (Hra h (Hin h (or_introl eq_refl)))
                (Hra y (Hin y Hy)) Hhy).
  lia.
Qed.

(** The /24 networks of the groups ascend strictly. *)
Lemma groups_keys_increasing (fuel : nat) (l : list Z) :
  Zsorted l -> Forall is_address l -> (List.length l <= fuel)%nat ->
  StronglySorted Z.lt (map (fun g => key24 (hd 0 g)) (groups fuel l)).
Proof.
  revert l. induction fuel as [|fuel IH]; intros l Hs Ha Hlen.
  - destruct l; constructor.
  - destruct l as [|x r]; [constructor|].
    pose proof (rest_keys_above x r Hs Ha) as Habove.
    cbn [groups map hd]. fold (key24 x).
    rewrite remove_group_sorted by exact Hs.
    pose proof (run_prefix (key24 x) r) as Hr.
    remember (skipn (List.length (same24_run (key24 x) r)) r) as rest eqn:Erest.
    assert (Hrs : Zsorted rest).
    { apply StronglySorted_inv in Hs as [Hsr _]. rewrite Hr in Hsr.
      now apply Zsorted_app in Hsr as (_ & H & _). }
    assert (Hra : Forall is_address rest).
    { apply Forall_inv_tail in Ha. rewrite Hr in Ha.
      now apply Forall_app in Ha as [_ H]. }
    assert (Hrl : (List.length rest <= fuel)%nat).
    { cbn in Hlen. apply (f_equal (@List.length Z)) in Hr.
      rewrite length_app in Hr. lia. }
    constructor; [now apply IH|].
    destruct (groups_sorted fuel rest Hrs Hrl) as [Hc Hn].
    apply Forall_forall. intros k Hk.
    apply in_map_iff in Hk as (g & <- & Hg).
    rewrite Forall_forall in Hn, Habove. apply Habove.
    rewrite <- Hc. apply in_concat. exists g. split; [exact Hg|].
    destruct (Hn g Hg) as [Hne _]. destruct g; [congruence | now left].
Qed.

Lemma increasing_nodup (l : list Z) : StronglySorted Z.lt l -> NoDup l.
Proof.
  induction 1 as [|x l _ IH Hx]; constructor; [|exact IH].
  intro Hin. rewrite Forall_forall in Hx. specialize (Hx x Hin). lia.
Qed.

Lemma multi_single_permutation (gs : list (list Z)) :
  Permutation (filter multi gs ++ filter single gs) gs.
Proof.
  induction gs as [|g gs IH]; [constructor|]. cbn [filter]. unfold multi at 1.
  destruct (single g); cbn [negb].
  - apply Permutation_sym, Permutation_cons_app, Permutation_sym, IH.
  - cbn [List.app]. now constructor.
Qed.

Lemma Forall2_map_both {A B C : Type} (R : B -> C -> Prop) (f : A -> B)
    (h : A -> C) (l : list A) :
  (forall x, In x l -> R (f x) (h x)) -> Forall2 R (map f l) (map h l).
Proof.
  induction l as [|x l IH]; intro H; [constructor|]. cbn [map]. constructor.
  - apply H. now left.
  - apply IH. intros y Hy. apply H. now right.
Qed.

(** X13: the partition is by /24 network (well-formed inputs, any floor of
    at most 32): every reported entry, an aggregated subnet or a singleton,
    holds addresses of one /24 only, and no two entries are of the same /24. *)
Theorem one_entry_per_network (ips : list string) (min_prefix : Z) :
  forallb well_formed ips = true -> min_prefix <= 32 ->
  exists aggs singles keys,
    split_subnets ips min_prefix = Some (Ok (aggs, singles)) /\
    Forall2 entry_in_network (entries aggs singles) keys /\
    NoDup keys.
Proof.
  intros H Hf. destruct (mapM_well_formed ips H) as (ints & Hints & Ha).
  destruct (split_subnets_floor ips ints min_prefix Hints Ha Hf)
    as (gs & aggs & Hret & Hm & Egs & Hc & Hn).
  assert (Haddr : Forall (Forall is_address) gs).
  { apply concat_parts_forall. rewrite Hc. now apply sorted_addresses. }
  rewrite Forall_forall in Hn, Haddr.
  set (seed_key := fun g : list Z => key24 (hd 0 g)).
  exists aggs, (map (fun g => int_to_ip (hd 0 g)) (filter single gs)),
    (map seed_key (filter multi gs) ++ map seed_key (filter single gs)).
  split; [exact Hret|]. split.
  - unfold entries. rewrite Hm, map_map. apply Forall2_app.
    + apply Forall2_map_both. intros g Hg. apply filter_In in Hg as [Hg _].
      unfold entry_in_network. apply Forall_map.
      destruct (Hn g Hg) as [_ Hk]. specialize (Haddr g Hg).
      rewrite Forall_forall in *. intros y Hy. exists y.
      split; [now apply parse_format, Haddr | now apply Hk].
    + apply Forall2_map_both. intros g Hg. apply filter_In in Hg as [Hg _].
      destruct (Hn g Hg) as [Hne _]. specialize (Haddr g Hg).
      destruct g as [|x r]; [congruence|]. cbn [hd].
      constructor; [|constructor]. exists x. split; [|reflexivity].
      apply parse_format. now inversion Haddr.
  - rewrite <- map_app.
    apply (Permutation_NoDup (l := map seed_key gs)).
    + apply Permutation_map, Permutation_sym, multi_single_permutation.
    + apply increasing_nodup. rewrite Egs.
      apply groups_keys_increasing;
        [apply sorted_Zsorted | now apply sorted_addresses | apply le_n].
Qed.

Lemma one_entry_per_network_witness :
  exists aggs singles keys,
    split_subnets ["10.0.1.1"; "10.0.0.200"; "9.9.9.9"; "10.0.0.1"] 24
    = Some (Ok (aggs, singles)) /\
    Forall2 entry_in_network (entries aggs singles) keys /\
    NoDup keys.
Proof.
  apply (one_entry_per_network
           ["10.0.1.1"; "10.0.0.200"; "9.9.9.9"; "10.0.0.1"] 24);
    [reflexivity | lia].
Defined.

(** ** The floor: above 32, and below 24 *)

Lemma emit_raises (gs : list (list Z)) (min_prefix : Z)
    (aggs : list AggregatedSubnet) (singles : list string) :
  Forall (fun g => g <> []) gs -> 32 < min_prefix -> existsb multi gs = true ->
  emit gs min_prefix aggs singles = Raise ValueError.
Proof.
  intros Hne Hf. revert aggs singles.
  induction Hne as [|g gs Hg _ IH]; intros aggs singles Hex; [discriminate|].
  cbn [emit existsb] in *. unfold multi in Hex at 1.
  destruct (single g); cbn [negb orb] in Hex.
  - now apply IH.
  - now rewrite (aggregate_floor_above_32 g min_prefix Hg Hf).
Qed.

Lemma all_single_keys (gs : list (list Z)) :
  existsb multi gs = false ->
  map key24 (List.concat gs) = map (fun g => key24 (hd 0 g)) gs.
Proof.
  induction gs as [|g gs IH]; [reflexivity|]. cbn [existsb]. intro H.
  apply orb_false_elim in H as [Hg Hgs]. unfold multi in Hg.
  apply negb_false_iff in Hg. rewrite (single_group g Hg) at 1.
  cbn [List.concat map List.app hd]. f_equal. now apply IH.
Qed.

(** X14: a floor above 32 is refused only when it is needed (well-formed
    inputs): if two input addresses share a /24, [find_min_subnet] is called
    and [split_subnets] raises [ValueError]; otherwise nothing is aggregated
    and the sorted singletons are returned. *)
Theorem split_subnets_floor_above_32 (ips : list string) (ints : list Z)
    (min_prefix : Z) :
  forallb well_formed ips = true -> mapM ip_to_int ips = Ok ints ->
  32 < min_prefix ->
  (NoDup (map key24 ints) ->
   split_subnets ips min_prefix = Some (Ok ([], map int_to_ip (sorted ints)))) /\
  (~ NoDup (map key24 ints) ->
   split_subnets ips min_prefix = Some (Raise ValueError)).
Proof.
  intros H Hints Hf. split.
  - intro Hnd. unfold split_subnets. rewrite Hints.
    apply split_loop_singles; [|apply le_n].
    apply (Permutation_NoDup (l := map key24 ints)); [|exact Hnd].
    apply Permutation_map, sorted_permutation.
  - intro Hdup. destruct (mapM_well_formed ips H) as (ints' & Hints' & Ha).
    rewrite Hints in Hints'. injection Hints' as <-.
    unfold split_subnets. rewrite Hints.
    rewrite split_loop_fuel by apply le_n. f_equal.
    destruct (groups_sorted (List.length (sorted ints)) (sorted ints)
                (sorted_Zsorted ints) (le_n _)) as [Hc Hn].
    apply emit_raises; [|exact Hf|].
    + apply Forall_impl with (2 := Hn). now intros g [Hne _].
    + destruct (existsb multi (groups (List.length (sorted ints)) (sorted ints)))
        eqn:E; [reflexivity|].
      exfalso. apply Hdup.
      apply (Permutation_NoDup (l := map key24 (sorted ints))).
      { apply Permutation_map, Permutation_sym, sorted_permutation. }
      rewrite <- Hc at 1. rewrite (all_single_keys _ E).
      apply increasing_nodup, groups_keys_increasing;
        [apply sorted_Zsorted | now apply sorted_addresses | apply le_n].
Qed.

Lemma split_subnets_floor_above_32_witness :
  (NoDup (map key24 [167772161; 167772417]) /\
   split_subnets ["10.0.0.1"; "10.0.1.1"] 33
   = Some (Ok ([], map int_to_ip (sorted [167772161; 167772417])))) /\
  (~ NoDup (map key24 [167772161; 167772162]) /\
   split_subnets ["10.0.0.1"; "10.0.0.2"] 33 = Some (Raise ValueError)).
Proof.
  split.
  - assert (N : NoDup (map key24 [167772161; 167772417]))
      by (repeat constructor; cbn; intuition discriminate).
    split; [exact N|].
    apply (proj1 (split_subnets_floor_above_32
                    ["10.0.0.1"; "10.0.1.1"] [167772161; 167772417] 33
                    eq_refl eq_refl ltac:(lia)) N).
  - assert (N : ~ NoDup (map key24 [167772161; 167772162])).
    { intro N. inversion N as [|? ? Hx _]. apply Hx. now left. }
    split; [exact N|].
    apply (proj2 (split_subnets_floor_above_32
                    ["10.0.0.1"; "10.0.0.2"] [167772161; 167772162] 33
                    eq_refl eq_refl ltac:(lia)) N).
Defined.

Lemma emit_ext (gs : list (list Z)) (p p' : Z)
    (aggs : list AggregatedSubnet) (singles : list string) :
  Forall (fun g => aggregate g p = aggregate g p') gs ->
  emit gs p aggs singles = emit gs p' aggs singles.
Proof.
  intro H. revert aggs singles.
  induction H as [|g gs Hg _ IH]; intros aggs singles; [reflexivity|].
  cbn [emit]. rewrite Hg. destruct (single g); [apply IH|].
  destruct (aggregate g p'); [apply IH | reflexivity].
Qed.

Lemma find_min_subnet_below_24 (x : Z) (r : list Z) (floor : Z) :
  Zsorted (x :: r) -> Forall is_address (x :: r) ->
  Forall (fun y => key24 y = key24 x) (x :: r) -> floor <= 24 ->
  find_min_subnet (x :: r) floor = find_min_subnet (x :: r) 24.
Proof.
  intros Hs Ha Hk Hf.
  assert (Hx : is_address x) by now apply Forall_inv in Ha.
  pose proof (min_of_sorted x r Hs) as Hm.
  pose proof (same_key_covers x (x :: r) Hx Ha Hk) as C.
  destruct (find_min_subnet_found (x :: r) floor x 24 Hm ltac:(lia) C)
    as (P1 & R1 & HP1 & C1 & M1).
  destruct (find_min_subnet_found (x :: r) 24 x 24 Hm ltac:(lia) C)
    as (P2 & R2 & HP2 & C2 & M2).
  assert (P1 = P2).
  { pose proof (M1 24 ltac:(lia) C). pose proof (M1 P2 ltac:(lia) C2).
    pose proof (M2 P1 ltac:(lia) C1). lia. }
  subst P2. unfold returns_block in R1, R2. now rewrite R1, R2.
Qed.

(** X15: the grouping is by /24 whatever the floor, so a floor below 24
    changes nothing: for well-formed inputs and every floor of at most 24,
    [split_subnets] returns exactly what it returns under the floor 24. *)
Theorem floor_below_24_irrelevant (ips : list string) (min_prefix : Z) :
  forallb well_formed ips = true -> min_prefix <= 24 ->
  split_subnets ips min_prefix = split_subnets ips 24.
Proof.
  intros H Hf. destruct (mapM_well_formed ips H) as (ints & Hints & Ha).
  unfold split_subnets. rewrite Hints. rewrite !split_loop_fuel by apply le_n.
  f_equal.
  destruct (groups_sorted (List.length (sorted ints)) (sorted ints)
              (sorted_Zsorted ints) (le_n _)) as [Hc Hn].
  remember (groups (List.length (sorted ints)) (sorted ints)) as gs eqn:Egs.
  assert (Hsorted : Forall Zsorted gs).
  { apply concat_parts_sorted. rewrite Hc. apply sorted_Zsorted. }
  assert (Haddr : Forall (Forall is_address) gs).
  { apply concat_parts_forall. rewrite Hc. now apply sorted_addresses. }
  apply emit_ext. rewrite Forall_forall in *. intros g Hg.
  destruct (Hn g Hg) as [Hne Hk]. destruct g as [|x r]; [congruence|].
  unfold aggregate.
  now rewrite (find_min_subnet_below_24 x r min_prefix
                 (Hsorted _ Hg) (Haddr _ Hg) Hk Hf).
Qed.

Lemma floor_below_24_irrelevant_witness :
  split_subnets ["10.0.0.200"; "10.0.0.1"; "10.0.1.1"] 8
  = split_subnets ["10.0.0.200"; "10.0.0.1"; "10.0.1.1"] 24.
Proof.
  apply (floor_below_24_irrelevant ["10.0.0.200"; "10.0.0.1"; "10.0.1.1"] 8);
    [reflexivity | lia].
Defined.

(** ** [read_ips_from_file] *)

Lemma read_lines_spec (lines ips : list string) :
  read_lines lines ips
  = ips ++ map PyStr.strip (filter (fun l => negb (skipped l)) lines).
Proof.
  revert ips. induction lines as [|l lines IH]; intro ips.
  - cbn. now rewrite List.app_nil_r.
  - cbn [read_lines filter]. unfold skipped at 1.
    destruct (String.eqb (PyStr.strip l) EmptyString
              || PyStr.startswith (PyStr.strip l) "#"); cbn [negb].
    + apply IH.
    + rewrite IH, <- List.app_assoc. reflexivity.
Qed.

Lemma lstrip_head (s : string) (c : ascii) (r : string) :
  PyStr.lstrip s = String c r -> PyStr.isspace c = false.
Proof.
  induction s as [|a s IH]; cbn [PyStr.lstrip]; [discriminate|].
  destruct (PyStr.isspace a) eqn:E; [exact IH|]. now intros [= <- _].
Qed.

Lemma rstrip_head (c : ascii) (r : string) :
  PyStr.isspace c = false ->
  PyStr.rstrip (String c r) = String c (PyStr.rstrip r).
Proof.
  intro H. cbn [PyStr.rstrip]. rewrite H. now destruct (PyStr.rstrip r).
Qed.

Lemma rstrip_last (s p : string) (c : ascii) :
  PyStr.rstrip s = (p ++ String c EmptyString)%string -> PyStr.isspace c = false.
Proof.
  revert p. induction s as [|a s IH]; intro p; cbn [PyStr.rstrip].
  - destruct p; discriminate.
  - destruct (PyStr.rstrip s) as [|b t] eqn:E.
    + destruct (PyStr.isspace a) eqn:Ha; [destruct p; discriminate|].
      destruct p as [|a' p']; cbn [String.append].
      * now intros [= <-].
      * intros [= _ H]. destruct p'; discriminate.
    + destruct p as [|a' p']; cbn [String.append].
      * discriminate.
      * intros [= _ H]. now apply (IH p').
Qed.

Lemma rstrip_idempotent (s : string) :
  PyStr.rstrip (PyStr.rstrip s) = PyStr.rstrip s.
Proof.
  induction s as [|a s IH]; [reflexivity|]. cbn [PyStr.rstrip].
  destruct (PyStr.rstrip s) as [|b t] eqn:E.
  - destruct (PyStr.isspace a) eqn:Ha; [reflexivity|].
    cbn [PyStr.rstrip]. now rewrite Ha.
  - cbn [PyStr.rstrip] in *. now rewrite IH.
Qed.

Lemma strip_idempotent (s : string) :
  PyStr.strip (PyStr.strip s) = PyStr.strip s.
Proof.
  unfold PyStr.strip. destruct (PyStr.lstrip s) as [|c r] eqn:E; [reflexivity|].
  pose proof (lstrip_head s c r E) as Hc.
  rewrite (rstrip_head c r Hc). cbn [PyStr.lstrip]. rewrite Hc.
  rewrite (rstrip_head c _ Hc). now rewrite rstrip_idempotent.
Qed.

Lemma strip_head (s : string) (c : ascii) (r : string) :
  PyStr.strip s = String c r -> PyStr.isspace c = false.
Proof.
  unfold PyStr.strip. destruct (PyStr.lstrip s) as [|a t] eqn:E; [discriminate|].
  pose proof (lstrip_head s a t E) as Ha. rewrite (rstrip_head a t Ha).
  now intros [= <- _].
Qed.

(** X16: [read_ips_from_file] returns, in the order of the file, the lines
    that are neither blank nor comments, stripped; so every entry it returns
    is non-empty, does not start with [#], and has no white space at either
    end. *)
Theorem read_ips_clean (lines : list string) :
  read_ips_from_file lines
  = map PyStr.strip (filter (fun l => negb (skipped l)) lines) /\
  Forall clean_entry (read_ips_from_file lines).
Proof.
  unfold read_ips_from_file. rewrite read_lines_spec. cbn [List.app].
  split; [reflexivity|]. apply Forall_map, Forall_forall. intros l Hl.
  apply filter_In in Hl as [_ Hk]. apply negb_true_iff in Hk.
  unfold skipped in Hk. apply orb_false_elim in Hk as [He Hc].
  split; [|split; [exact Hc|split]].
  - intro E. rewrite E in He. discriminate.
  - intros c r. apply strip_head.
  - intros p c. unfold PyStr.strip. apply rstrip_last.
Qed.

Lemma rstrip_spaces (nl : string) :
  all_chars PyStr.isspace nl = true -> PyStr.rstrip nl = EmptyString.
Proof.
  induction nl as [|a nl IH]; [reflexivity|]. cbn [all_chars PyStr.rstrip].
  intro H. apply andb_prop in H as [Ha Hnl]. now rewrite (IH Hnl), Ha.
Qed.

Lemma rstrip_append_spaces (s nl : string) :
  all_chars PyStr.isspace nl = true ->
  PyStr.rstrip (s ++ nl)%string = PyStr.rstrip s.
Proof.
  intro H. induction s as [|a s IH]; cbn [String.append].
  - now apply rstrip_spaces.
  - cbn [PyStr.rstrip]. now rewrite IH.
Qed.

Lemma strip_append_spaces (l nl : string) :
  all_chars PyStr.isspace nl = true ->
  PyStr.strip (PyStr.strip l ++ nl)%string = PyStr.strip l.
Proof.
  intro H. destruct (PyStr.strip l) as [|c r] eqn:E.
  - cbn [String.append]. unfold PyStr.strip.
    assert (L : forall t, all_chars PyStr.isspace t = true ->
                          PyStr.lstrip t = EmptyString).
    { induction t as [|a t IH]; [reflexivity|]. cbn [all_chars PyStr.lstrip].
      intro Ht. apply andb_prop in Ht as [Ha Ht]. now rewrite Ha, (IH Ht). }
    now rewrite (L nl H).
  - pose proof (strip_head l c r E) as Hc.
    unfold PyStr.strip at 1. cbn [String.append PyStr.lstrip]. rewrite Hc.
    change (String c (r ++ nl))%string with (String c r ++ nl)%string.
    rewrite (rstrip_append_spaces _ nl H), <- E.
    unfold PyStr.strip. apply rstrip_idempotent.
Qed.

(** X17: reading round-trips through a file: when the entries that were read
    are written out one per line, each followed by a line terminator [nl]
    made of white space (a newline, a carriage return and a newline, or
    nothing at all), reading that file gives the same entries again. *)
Theorem read_ips_round_trip (lines : list string) (nl : string) :
  all_chars PyStr.isspace nl = true ->
  read_ips_from_file
    (map (fun entry => (entry ++ nl)%string) (read_ips_from_file lines))
  = read_ips_from_file lines.
Proof.
  intro Hnl. unfold read_ips_from_file. rewrite !read_lines_spec.
  cbn [List.app].
  induction lines as [|l lines IH]; [reflexivity|]. cbn [filter].
  destruct (skipped l) eqn:E; cbn [negb]; [exact IH|].
  cbn [map filter].
  assert (K : skipped (PyStr.strip l ++ nl)%string = false).
  { unfold skipped. rewrite (strip_append_spaces l nl Hnl). exact E. }
  rewrite K. cbn [negb map].
  now rewrite (strip_append_spaces l nl Hnl), IH.
Qed.

Lemma read_ips_round_trip_witness :
  read_ips_from_file
    (map (fun entry => (entry ++ String "010" EmptyString)%string)
         (read_ips_from_file ["# hosts"; "  10.0.0.1 "; ""; "10.0.0.2"]))
  = read_ips_from_file ["# hosts"; "  10.0.0.1 "; ""; "10.0.0.2"].
Proof.
  exact (read_ips_round_trip ["# hosts"; "  10.0.0.1 "; ""; "10.0.0.2"]
           (String "010" EmptyString) eq_refl).
Defined.

(** X18: the lines are read one by one: a file made of two parts reads as
    the entries of the first followed by those of the second, and a blank or
    comment line, wherever it stands, adds nothing. *)
Theorem read_ips_by_line (before after : list string) (line : string) :
  read_ips_from_file (before ++ after)
  = read_ips_from_file before ++ read_ips_from_file after /\
  (skipped line = true ->
   read_ips_from_file (before ++ line :: after)
   = read_ips_from_file (before ++ after)).
Proof.
  unfold read_ips_from_file. rewrite !read_lines_spec. cbn [List.app].
  rewrite !filter_app, !map_app. split; [reflexivity|].
  intro H. cbn [filter]. now rewrite H.
Qed.

Lemma read_ips_by_line_witness :
  read_ips_from_file (["10.0.0.1"] ++ ["10.0.0.2"])
  = read_ips_from_file ["10.0.0.1"] ++ read_ips_from_file ["10.0.0.2"] /\
  (skipped "  # office" = true /\
   read_ips_from_file (["10.0.0.1"] ++ "  # office" :: ["10.0.0.2"])
   = read_ips_from_file (["10.0.0.1"] ++ ["10.0.0.2"])).
Proof.
  destruct (read_ips_by_line ["10.0.0.1"] ["10.0.0.2"] "  # office") as [H1 H2].
  split; [exact H1|]. split; [reflexivity | exact (H2 eq_refl)].
Defined.

(** ** [calculate_subnet_size] *)

(** X19: [calculate_subnet_size] is 0 exactly outside [0, 32]; inside, it
    goes from 2^32 at 0 down to 1 at 32, every further bit of prefix halving
    the block. *)
Theorem calculate_subnet_size_range (p : Z) :
  (calculate_subnet_size p = 0 <-> p < 0 \/ 32 < p) /\
  (0 <= p <= 32 -> 1 <= calculate_subnet_size p <= 2 ^ 32) /\
  (0 <= p < 32 -> calculate_subnet_size p = 2 * calculate_subnet_size (p + 1)).
Proof.
  assert (In_range : forall q, 0 <= q <= 32 ->
                               calculate_subnet_size q = 2 ^ (32 - q)).
  { intros q Hq. unfold calculate_subnet_size.
    replace (q <? 0) with false by (symmetry; apply Z.ltb_ge; lia).
    replace (q >? 32) with false
      by (symmetry; rewrite Z.gtb_ltb; apply Z.ltb_ge; lia).
    reflexivity. }
  split; [|split].
  - destruct (Z.lt_ge_cases p 0) as [Hneg|Hnn].
    + unfold calculate_subnet_size.
      replace (p <? 0) with true by (symmetry; apply Z.ltb_lt; lia).
      cbn [orb]. split; [now left | reflexivity].
    + destruct (Z.lt_ge_cases 32 p) as [Hbig|Hsmall].
      * unfold calculate_subnet_size.
        replace (p >? 32) with true
          by (symmetry; rewrite Z.gtb_ltb; apply Z.ltb_lt; lia).
        rewrite orb_true_r. split; [now right | reflexivity].
      * rewrite In_range by lia.
        pose proof (Z.pow_pos_nonneg 2 (32 - p) ltac:(lia) ltac:(lia)). lia.
  - intro Hp. rewrite In_range by exact Hp. split.
    + pose proof (Z.pow_pos_nonneg 2 (32 - p) ltac:(lia) ltac:(lia)). lia.
    + apply Z.pow_le_mono_r; lia.
  - intro Hp. rewrite !In_range by lia.
    replace (32 - p) with (Z.succ (32 - (p + 1))) by lia.
    apply Z.pow_succ_r. lia.
Qed.

Lemma calculate_subnet_size_range_witness :
  (calculate_subnet_size 33 = 0 /\ (33 < 0 \/ 32 < 33)) /\
  (0 <= 24 <= 32 /\ 1 <= calculate_subnet_size 24 <= 2 ^ 32) /\
  (0 <= 24 < 32 /\ calculate_subnet_size 24 = 2 * calculate_subnet_size (24 + 1)).
Proof.
  split; [|split].
  - assert (H : 33 < 0 \/ 32 < 33) by lia.
    split; [exact (proj2 (proj1 (calculate_subnet_size_range 33)) H) | exact H].
  - assert (H : 0 <= 24 <= 32) by lia.
    split; [exact H | exact (proj1 (proj2 (calculate_subnet_size_range 24)) H)].
  - assert (H : 0 <= 24 < 32) by lia.
    split; [exact H | exact (proj2 (proj2 (calculate_subnet_size_range 24)) H)].
Defined.

(** ** Singletons are the addresses alone in their /24 *)

Lemma filter_permutation {A : Type} (f : A -> bool) (l l' : list A) :
  Permutation l l' -> Permutation (filter f l) (filter f l').
Proof.
  induction 1 as [|x l l' _ IH|x y l|l l' l'' _ IH1 _ IH2]; cbn [filter].
  - constructor.
  - destruct (f x); [now constructor | exact IH].
  - destruct (f x), (f y); try reflexivity. constructor.
  - now apply Permutation_trans with (filter f l').
Qed.

Lemma map_nodup_injective {A B : Type} (f : A -> B) (l : list A) (x y : A) :
  NoDup (map f l) -> In x l -> In y l -> f x = f y -> x = y.
Proof.
  induction l as [|a l IH]; [intros _ []|]. cbn [map]. intro Hnd.
  apply NoDup_cons_iff in Hnd as [Ha Hnd]. intros [->|Hx] [->|Hy] E.
  - reflexivity.
  - exfalso. apply Ha. rewrite E. now apply in_map.
  - exfalso. apply Ha. rewrite <- E. now apply in_map.
  - now apply IH.
Qed.

(** With pairwise distinct seed networks, the addresses of a group's /24
    are, in the whole list, the group itself. *)
Lemma filter_concat_groups (gs : list (list Z)) (g : list Z) :
  NoDup (map (fun g => key24 (hd 0 g)) gs) -> Forall same_network gs ->
  In g gs ->
  filter (fun y => key24 y =? key24 (hd 0 g)) (List.concat gs) = g.
Proof.
  induction gs as [|g0 gs IH]; intros Hnd Hn Hg; [destruct Hg|].
  cbn [map] in Hnd. apply NoDup_cons_iff in Hnd as [Hfresh Hnd].
  pose proof (Forall_inv Hn) as [_ Hk0]. pose proof (Forall_inv_tail Hn) as Hn'.
  rewrite Forall_forall in Hk0.
  cbn [List.concat]. rewrite filter_app. destruct Hg as [->|Hg].
  - rewrite filter_all by (intros y Hy; apply Z.eqb_eq; now apply Hk0).
    rewrite filter_none; [apply List.app_nil_r|].
    intros y Hy. apply in_concat in Hy as (g' & Hg' & Hy).
    apply Z.eqb_neq. intro E. apply Hfresh.
    rewrite Forall_forall in Hn'. destruct (Hn' g' Hg') as [_ Hk'].
    rewrite Forall_forall in Hk'. rewrite <- E, (Hk' y Hy).
    now apply (in_map (fun g => key24 (hd 0 g))).
  - rewrite filter_none; [now apply IH|].
    intros y Hy. apply Z.eqb_neq. intro E. apply Hfresh.
    rewrite <- (Hk0 y Hy), E.
    now apply (in_map (fun g => key24 (hd 0 g))).
Qed.

(** X20: an address is reported as a singleton exactly when it is alone in
    its /24 (well-formed inputs, any floor of at most 32): an input address
    appears among the singletons if and only if no other occurrence of the
    input, itself included, has the same /24 network. *)
Theorem singleton_iff_alone (ips : list string) (min_prefix : Z) :
  forallb well_formed ips = true -> min_prefix <= 32 ->
  exists ints aggs singles,
    mapM ip_to_int ips = Ok ints /\
    split_subnets ips min_prefix = Some (Ok (aggs, singles)) /\
    forall v, In v ints ->
      (In (int_to_ip v) singles <->
       List.length (filter (fun y => key24 y =? key24 v) ints) = 1%nat).
Proof.
  intros H Hf. destruct (mapM_well_formed ips H) as (ints & Hints & Ha).
  destruct (split_subnets_floor ips ints min_prefix Hints Ha Hf)
    as (gs & aggs & Hret & _ & Egs & Hc & Hn).
  exists ints, aggs, (map (fun g => int_to_ip (hd 0 g)) (filter single gs)).
  split; [exact Hints|]. split; [exact Hret|]. intros v Hv.
  assert (Hnd : NoDup (map (fun g => key24 (hd 0 g)) gs)).
  { apply increasing_nodup. rewrite Egs.
    apply groups_keys_increasing;
      [apply sorted_Zsorted | now apply sorted_addresses | apply le_n]. }
  assert (Hvs : In v (List.concat gs)).
  { rewrite Hc. now apply (Permutation_in _ (sorted_permutation ints)). }
  apply in_concat in Hvs as (g & Hg & Hvg).
  pose proof Hn as Hn'. rewrite Forall_forall in Hn'.
  destruct (Hn' g Hg) as [Hne Hk]. rewrite Forall_forall in Hk.
  assert (Hcount : List.length (filter (fun y => key24 y =? key24 v) ints)
                   = List.length g).
  { rewrite (Permutation_length
               (filter_permutation _ _ _ (sorted_permutation ints))).
    rewrite <- Hc, (Hk v Hvg). now rewrite (filter_concat_groups gs g Hnd Hn Hg). }
  rewrite Hcount.
  assert (Haddr : forall y, In y (List.concat gs) -> is_address y).
  { intros y Hy. rewrite Hc in Hy.
    pose proof (sorted_addresses ints Ha) as Hs. rewrite Forall_forall in Hs.
    now apply Hs. }
  split.
  - intro Hin. apply in_map_iff in Hin as (g' & E & Hg').
    apply filter_In in Hg' as [Hg' S'].
    assert (g' = g).
    { apply (map_nodup_injective (fun g => key24 (hd 0 g)) gs);
        [exact Hnd | exact Hg' | exact Hg |].
      rewrite <- (Hk v Hvg). f_equal.
      pose proof (single_group g' S') as E'.
      apply int_to_ip_injective; [| |exact E].
      - apply Haddr. apply in_concat. exists g'. split; [exact Hg'|].
        rewrite E'. now left.
      - apply Haddr. apply in_concat. now exists g. }
    subst g'. unfold single in S'. now apply Nat.eqb_eq in S'.
  - intro L. apply in_map_iff. exists g.
    assert (S : single g = true) by (unfold single; now apply Nat.eqb_eq).
    split; [|apply filter_In; now split].
    f_equal. rewrite (single_group g S) in Hvg. destruct Hvg as [->|[]].
    reflexivity.
Qed.

Lemma singleton_iff_alone_witness :
  exists ints aggs singles,
    mapM ip_to_int ["10.0.0.200"; "9.9.9.9"; "10.0.0.1"] = Ok ints /\
    split_subnets ["10.0.0.200"; "9.9.9.9"; "10.0.0.1"] 24
    = Some (Ok (aggs, singles)) /\
    forall v, In v ints ->
      (In (int_to_ip v) singles <->
       List.length (filter (fun y => key24 y =? key24 v) ints) = 1%nat).
Proof.
  apply (singleton_iff_alone ["10.0.0.200"; "9.9.9.9"; "10.0.0.1"] 24);
    [reflexivity | lia].
Defined.

(** ** The alphabet of [ip_to_int], and one bad line *)

Lemma all_chars_skip_space (f : ascii -> bool) (s : string) :
  (forall c, Py.is_space c = true -> f c = true) ->
  all_chars f (Py.skip_space s) = true -> all_chars f s = true.
Proof.
  intro Hf. induction s as [|c s IH]; [reflexivity|]. cbn [Py.skip_space].
  destruct (Py.is_space c) eqn:E; [|exact (fun H => H)].
  intro H. cbn [all_chars]. now rewrite (Hf c E), (IH H).
Qed.

Lemma skip_space_empty (s : string) :
  Py.skip_space s = EmptyString -> all_chars Py.is_space s = true.
Proof.
  induction s as [|c s IH]; [reflexivity|]. cbn [Py.skip_space all_chars].
  destruct (Py.is_space c); [exact IH | discriminate].
Qed.

Lemma all_chars_impl (f h : ascii -> bool) (s : string) :
  (forall c, f c = true -> h c = true) ->
  all_chars f s = true -> all_chars h s = true.
Proof.
  intro Hfh. induction s as [|c s IH]; [reflexivity|]. cbn [all_chars].
  intro H. apply andb_prop in H as [Hc Hs]. now rewrite (Hfh c Hc), (IH Hs).
Qed.

Lemma digits_tail_chars (n : nat) (s : string) (acc v : Z) (rest : string) :
  (String.length s <= n)%nat ->
  Py.digits_tail s acc = Some (v, rest) ->
  all_chars parse_char rest = true -> all_chars parse_char s = true.
Proof.
  revert s acc. induction n as [|n IH]; intros s acc Hlen H Hrest.
  - destruct s; [reflexivity | cbn in Hlen; lia].
  - destruct s as [|c s']; [reflexivity|]. cbn [Py.digits_tail] in H.
    cbn [String.length] in Hlen.
    destruct (Py.digit_of c) as [d|] eqn:D.
    + cbn [all_chars]. unfold parse_char at 1, is_digit. rewrite D. cbn [orb andb].
      apply (IH s' (10 * acc + d)); [lia | exact H | exact Hrest].
    + destruct (Ascii.eqb_spec c "_") as [->|Hc].
      * destruct s' as [|c' s'']; [discriminate|].
        destruct (Py.digit_of c') as [d|] eqn:D'; [|discriminate].
        cbn [all_chars]. unfold parse_char at 2, is_digit. rewrite D'.
        cbn [orb andb]. cbn [String.length] in Hlen.
        replace (parse_char "_") with true by reflexivity. cbn [andb].
        apply (IH s'' (10 * acc + d)); [lia | exact H | exact Hrest].
      * injection H as _ <-. exact Hrest.
Qed.

Lemma int_chars (w : string) (v : Z) :
  Py.int w = Ok v -> all_chars parse_char w = true.
Proof.
  intro H. apply int_of_literal in H. apply all_chars_skip_space.
  { intros c Hc. unfold parse_char. rewrite Hc. now rewrite orb_true_r. }
  unfold Py.int_literal in H.
  assert (Body : forall s2 neg,
             match s2 with
             | EmptyString => Raise ValueError
             | String c r =>
                 match Py.digit_of c with
                 | None => Raise ValueError
                 | Some d =>
                     match Py.digits_tail r d with
                     | None => Raise ValueError
                     | Some (v, rest) =>
                         match Py.skip_space rest with
                         | EmptyString => Ok (if neg : bool then - v else v)
                         | String _ _ => Raise ValueError
                         end
                     end
                 end
             end = Ok v -> all_chars parse_char s2 = true).
  { intros s2 neg B. destruct s2 as [|c r]; [discriminate|].
    destruct (Py.digit_of c) as [d|] eqn:D; [|discriminate].
    destruct (Py.digits_tail r d) as [[v' rest]|] eqn:T; [|discriminate].
    destruct (Py.skip_space rest) eqn:S; [|discriminate].
    cbn [all_chars]. unfold parse_char at 1, is_digit. rewrite D. cbn [orb andb].
    apply (digits_tail_chars (String.length r) r d v' rest (le_n _) T).
    apply (all_chars_impl Py.is_space); [|now apply skip_space_empty].
    intros a Ha. unfold parse_char. rewrite Ha. now rewrite orb_true_r. }
  destruct (Py.skip_space w) as [|c r] eqn:E; [discriminate|].
  destruct (Ascii.eqb_spec c "-") as [->|Hm].
  { cbn [all_chars]. replace (parse_char "-") with true by reflexivity.
    exact (Body r true H). }
  destruct (Ascii.eqb_spec c "+") as [->|Hp].
  { cbn [all_chars]. replace (parse_char "+") with true by reflexivity.
    exact (Body r false H). }
  apply (Body (String c r) false).
  destruct c as [[|] [|] [|] [|] [|] [|] [|] [|]]; try exact H; congruence.
Qed.

Lemma all_chars_split (f : ascii -> bool) (s : string) :
  f "."%char = true ->
  forallb (all_chars f) (Py.split "." s) = true -> all_chars f s = true.
Proof.
  intro Hdot. induction s as [|c s IH]; [reflexivity|]. cbn [Py.split].
  destruct (Ascii.eqb_spec c ".") as [->|Hc].
  - cbn [forallb all_chars]. rewrite Hdot. exact IH.
  - pose proof (split_nonempty "." s) as Hne.
    destruct (Py.split "." s) as [|w ws]; [congruence|].
    cbn [forallb all_chars] in *. intro H.
    apply andb_prop in H as [H Hws]. apply andb_prop in H as [Hfc Hw].
    rewrite Hfc. cbn [andb]. apply IH. now rewrite Hw, Hws.
Qed.

Lemma numeric_components_chars (l : list string) :
  forallb numeric l = true -> forallb (all_chars parse_char) l = true.
Proof.
  induction l as [|w l IH]; [reflexivity|]. cbn [forallb]. intro H.
  apply andb_prop in H as [Hw Hl]. rewrite (IH Hl), andb_true_r.
  unfold numeric in Hw. destruct (Py.int w) as [v|] eqn:E; [|discriminate].
  now apply (int_chars w v).
Qed.

(** X21: [ip_to_int] accepts no other character than the digits, the dot,
    the signs, the underscore and the white space of [int()]: a text holding
    any other character, a [#] or a letter say, raises [ValueError] whatever
    its shape. *)
Theorem ip_to_int_alphabet (s : string) :
  all_chars parse_char s = false -> ip_to_int s = Raise ValueError.
Proof.
  intro H. destruct (all_numeric s) eqn:N.
  - exfalso. unfold all_numeric in N.
    apply numeric_components_chars in N.
    rewrite (all_chars_split parse_char s eq_refl N) in H. discriminate.
  - unfold ip_to_int. unfold all_numeric in N.
    now rewrite (mapM_not_numeric _ N).
Qed.

Lemma ip_to_int_alphabet_witness :
  ip_to_int "10.0.0.2 # gateway" = Raise ValueError.
Proof.
  exact (ip_to_int_alphabet "10.0.0.2 # gateway" eq_refl).
Defined.

Lemma mapM_raise_in {A B : Type} (f : A -> result B) (l : list A) (x : A)
    (e : exn) :
  In x l -> f x = Raise e ->
  exists x' e', In x' l /\ f x' = Raise e' /\ mapM f l = Raise e'.
Proof.
  induction l as [|y l IH]; intros Hin Hx; [contradiction|].
  cbn [mapM]. destruct (f y) as [v|e0] eqn:Ey; cbn [bind].
  - destruct Hin as [->|Hin]; [congruence|].
    destruct (IH Hin Hx) as (x' & e' & Hin' & Hx' & Hm).
    exists x', e'. rewrite Hm. cbn [bind].
    split; [now right|]. now split.
  - exists y, e0. split; [now left|]. now split.
Qed.

(** X22: the loader checks no address: a line it keeps, stripped, reaches
    [split_subnets] as it is, and if [ip_to_int] raises on it (a line with
    an inline comment, say) the whole run raises [ValueError] or
    [IndexError], whatever the other lines and the prefix floor are; no
    partial result is returned. *)
Theorem one_bad_line_aborts (lines : list string) (line : string) (e : exn)
    (min_prefix : Z) :
  In line lines -> skipped line = false ->
  ip_to_int (PyStr.strip line) = Raise e ->
  In (PyStr.strip line) (read_ips_from_file lines) /\
  exists e', (e' = ValueError \/ e' = IndexError) /\
    split_subnets (read_ips_from_file lines) min_prefix = Some (Raise e').
Proof.
  intros Hin Hk He.
  assert (Hkept : In (PyStr.strip line) (read_ips_from_file lines)).
  { unfold read_ips_from_file. rewrite read_lines_spec. cbn [List.app].
    apply in_map, filter_In. split; [exact Hin|]. now rewrite Hk. }
  split; [exact Hkept|].
  destruct (mapM_raise_in ip_to_int _ _ e Hkept He) as (x' & e' & _ & Hx' & Hm).
  exists e'. split; [exact (ip_to_int_raises x' e' Hx')|].
  unfold split_subnets. now rewrite Hm.
Qed.

Lemma one_bad_line_aborts_witness :
  exists e', (e' = ValueError \/ e' = IndexError) /\
    split_subnets
      (read_ips_from_file ["10.0.0.1"; "  10.0.0.2 # gateway "; "10.0.0.3"])
      24 = Some (Raise e').
Proof.
  exact (proj2 (one_bad_line_aborts
                  ["10.0.0.1"; "  10.0.0.2 # gateway "; "10.0.0.3"]
                  "  10.0.0.2 # gateway " ValueError 24
                  (or_intror (or_introl eq_refl)) eq_refl eq_refl)).
Defined.
